(** * AdvancedFixedIncome: bond valuation and duration helpers

    A shallow embedding of [AdvancedFixedIncome.py] and the properties of
    its pricing and duration functions.

    Numbers.  Finite floats are idealised as real numbers: [+], [-], [*]
    are exact, rounding error, overflow and underflow of binary64
    arithmetic are outside the model, and [np.round] and [int] are
    modelled exactly.

    Python scalars and numpy values differ on the partial operations, and
    the embedding keeps the difference.  The arguments a caller passes
    ([N], [T], [r], [yc], ...) are Python scalars: [/] and [**] raise
    [ZeroDivisionError], and a negative base raised to a fractional power
    returns a complex number.  The values read from a pandas Series and
    everything computed from them are numpy [float64]: no operation on
    them raises, a division by zero gives [inf], [-inf] or [nan], these
    values flow on through the rest of the computation, and [Series.sum()]
    skips [nan].  The only zero of the model is the positive zero of
    binary64: the divisors of the code are sums and powers of sums, whose
    zero is positive unless an argument is itself a negative zero.

    Outcomes.  A call is a [result]: [Ok x] when it returns the finite
    number [x], [Err e] otherwise, [e] telling what happens instead: an
    exception is raised, a complex number is returned, or one of [inf],
    [-inf], [nan] is returned.  A caller that goes on computing with a
    returned non-finite value reads it back with [np.value]. *)

From Stdlib Require Import Reals Lra Lia List ZArith Bool.
Import ListNotations.

Open Scope R_scope.

(** ** Outcomes of a call *)

Inductive exn : Set :=
| IndexError          (* raised: positional access out of bounds *)
| ZeroDivisionError   (* raised: Python scalar division by zero, zero to a
                         negative power *)
| ComplexResult       (* returned: the complex power of a negative base
                         with a fractional exponent *)
| ReturnsInf          (* returned: numpy [inf] *)
| ReturnsNegInf       (* returned: numpy [-inf] *)
| ReturnsNaN.         (* returned: numpy [nan] *)

Inductive result (A : Type) : Type :=
| Ok (a : A)
| Err (e : exn).

Arguments Ok {A} a.
Arguments Err {A} e.

Definition bind {A B : Type} (c : result A) (k : A -> result B) : result B :=
  match c with
  | Ok a => k a
  | Err e => Err e
  end.

Notation "x <- c ;; k" := (bind c (fun x => k))
  (at level 61, c at next level, right associativity).

(** A comprehension [[f i for i in l]] whose body can fail: elements are
    evaluated left to right and the first failure aborts. *)
Fixpoint mapM {A B : Type} (f : A -> result B) (l : list A) : result (list B) :=
  match l with
  | [] => Ok []
  | a :: l' => b <- f a ;; bs <- mapM f l' ;; Ok (b :: bs)
  end.

(** ** Python scalar primitives *)

Module Py.

(** [x / y] *)
Definition div (x y : R) : result R :=
  if Req_dec_T y 0 then Err ZeroDivisionError else Ok (x / y).

(** [e] is a whole number *)
Definition integral (e : R) : bool :=
  if Req_dec_T (IZR (Zfloor e)) e then true else false.

(** [x ** e] on floats *)
Definition pow (x e : R) : result R :=
  if Rlt_dec 0 x then Ok (Rpower x e)
  else if Req_dec_T x 0 then
    if Rlt_dec 0 e then Ok 0
    else if Req_dec_T e 0 then Ok 1
    else Err ZeroDivisionError
  else
    if integral e then Ok (powerRZ x (Zfloor e))
    else Err ComplexResult.

(** [int(x)]: truncation towards zero *)
Definition int (x : R) : Z :=
  if Rle_dec 0 x then Zfloor x else Zceil x.

(** [range(n)]: empty when [n <= 0] *)
Definition range (n : Z) : list nat := seq 0 (Z.to_nat n).

End Py.

(** ** numpy *)

(** A numpy [float64]: a real number or one of the three non-finite
    values. *)
Inductive float64 : Type :=
| Fin (x : R)
| PInf
| NInf
| NaN.

Module np.

(** [np.rint]: nearest integer, ties to the even one *)
Definition rint (x : R) : Z :=
  let f := Zfloor x in
  if Rlt_dec (x - IZR f) (1 / 2) then f
  else if Rlt_dec (1 / 2) (x - IZR f) then (f + 1)%Z
  else if Z.even f then f else (f + 1)%Z.

(** [np.round(x, decimals)] on a finite [x]: scale by [10**decimals],
    [rint], scale back *)
Definition round (x : R) (decimals : nat) : R :=
  IZR (rint (x * 10 ^ decimals)) / 10 ^ decimals.

(** [np.round(v, decimals)] on any float64: [inf], [-inf] and [nan] are
    returned as they are *)
Definition around (v : float64) (decimals : nat) : float64 :=
  match v with
  | Fin x => Fin (round x decimals)
  | _ => v
  end.

(** The infinity with the sign of [x]; [nan] for [x = 0].  This is both
    [x * inf] and [x / 0.0]. *)
Definition signed_inf (x : R) : float64 :=
  if Rlt_dec 0 x then PInf
  else if Rlt_dec x 0 then NInf
  else NaN.

(** [-v] *)
Definition neg (v : float64) : float64 :=
  match v with
  | Fin x => Fin (- x)
  | PInf => NInf
  | NInf => PInf
  | NaN => NaN
  end.

(** [v + w] *)
Definition add (v w : float64) : float64 :=
  match v, w with
  | Fin a, Fin b => Fin (a + b)
  | NaN, _ | _, NaN => NaN
  | PInf, NInf | NInf, PInf => NaN
  | PInf, _ | _, PInf => PInf
  | NInf, _ | _, NInf => NInf
  end.

(** [v * w] *)
Definition mul (v w : float64) : float64 :=
  match v, w with
  | Fin a, Fin b => Fin (a * b)
  | Fin a, PInf | PInf, Fin a => signed_inf a
  | Fin a, NInf | NInf, Fin a => neg (signed_inf a)
  | PInf, PInf | NInf, NInf => PInf
  | PInf, NInf | NInf, PInf => NInf
  | NaN, _ | _, NaN => NaN
  end.

(** [v / w]: never raises; a zero divisor gives an infinity or [nan], an
    infinite divisor gives zero *)
Definition div (v w : float64) : float64 :=
  match v, w with
  | Fin a, Fin b => if Req_dec_T b 0 then signed_inf a else Fin (a / b)
  | Fin _, PInf | Fin _, NInf => Fin 0
  | PInf, Fin b => if Rle_dec 0 b then PInf else NInf
  | NInf, Fin b => if Rle_dec 0 b then NInf else PInf
  | _, _ => NaN
  end.

(** [x ** e] ([np.power]) on finite operands: never raises; zero to a
    negative power is [inf], a negative base to a fractional power is
    [nan] *)
Definition pow (x e : R) : float64 :=
  if Rlt_dec 0 x then Fin (Rpower x e)
  else if Req_dec_T x 0 then
    if Rlt_dec 0 e then Fin 0
    else if Req_dec_T e 0 then Fin 1
    else PInf
  else
    if Py.integral e then Fin (powerRZ x (Zfloor e))
    else NaN.

(** The outcome of a call that returns the float64 [v] *)
Definition returned (v : float64) : result R :=
  match v with
  | Fin x => Ok x
  | PInf => Err ReturnsInf
  | NInf => Err ReturnsNegInf
  | NaN => Err ReturnsNaN
  end.

(** The float64 a call returned, if it returned one; an exception of the
    call is raised again *)
Definition value (c : result R) : result float64 :=
  match c with
  | Ok x => Ok (Fin x)
  | Err ReturnsInf => Ok PInf
  | Err ReturnsNegInf => Ok NInf
  | Err ReturnsNaN => Ok NaN
  | Err e => Err e
  end.

End np.

(** ** pandas Series of floats with the default [RangeIndex] *)

Module pd.

Definition Series := list R.

(** [s.iloc[i]] for [i >= 0] *)
Definition iloc (s : Series) (i : nat) : result R :=
  match nth_error s i with
  | Some x => Ok x
  | None => Err IndexError
  end.

(** [s.iloc[-1] += x] *)
Definition iloc_last_add (s : Series) (x : R) : result Series :=
  match s with
  | [] => Err IndexError
  | _ :: _ => Ok (removelast s ++ [last s 0 + x])
  end.

(** [s.sum()] *)
Definition sum (s : Series) : R := fold_right Rplus 0 s.

(** [a * b], element by element (the operands here always share the same
    [RangeIndex], hence the same length) *)
Fixpoint mul (a b : Series) : Series :=
  match a, b with
  | x :: a', y :: b' => x * y :: mul a' b'
  | _, _ => []
  end.

(** A Series of float64 values that may hold [inf], [-inf] or [nan] *)
Definition Floats := list float64.

(** A Series of finite values, seen as a Series of float64 *)
Definition floats (s : Series) : Floats := map Fin s.

(** [a * b], element by element, on float64 values *)
Fixpoint fmul (a b : Floats) : Floats :=
  match a, b with
  | x :: a', y :: b' => np.mul x y :: fmul a' b'
  | _, _ => []
  end.

(** [a / b], element by element: never raises *)
Fixpoint fdiv (a b : Floats) : Floats :=
  match a, b with
  | x :: a', y :: b' => np.div x y :: fdiv a' b'
  | _, _ => []
  end.

(** [s.sum()] with the default [skipna=True]: the [nan] entries are left
    out and the others are added up; the sum of no entry is 0 *)
Fixpoint fsum (s : Floats) : float64 :=
  match s with
  | [] => Fin 0
  | NaN :: s' => fsum s'
  | x :: s' => np.add x (fsum s')
  end.

End pd.

(** ** The source functions *)

(** [zc_bond(N, T, r, simple_rate=True)] on Python scalars *)
Definition zc_bond (N T r : R) (simple_rate : bool) : result R :=
  Py.div N (1 + r * T).

(** [zc_bond(N, T, r, simple_rate=True)] when [r] is a numpy float64, as
    the rates read with [zc_rates.iloc[i]] are: the same expression, whose
    [/] is then numpy's and returns [inf] or [nan] at a zero denominator *)
Definition zc_bond_np (N T r : R) (simple_rate : bool) : float64 :=
  np.div (Fin N) (Fin (1 + r * T)).

(** [simple_to_comp(simple_rate, t, freq_per_year)] *)
Definition simple_to_comp (simple_rate t freq_per_year : R) : result R :=
  e <- Py.div 1 (t * freq_per_year) ;;
  p <- Py.pow (1 + simple_rate * t) e ;;
  Ok ((p - 1) * freq_per_year).

(** [comp_to_simple(comp_rate, t, freq_per_year)] *)
Definition comp_to_simple (comp_rate t freq_per_year : R) : result R :=
  q <- Py.div comp_rate freq_per_year ;;
  p <- Py.pow (1 + q) (t * freq_per_year) ;;
  Py.div (p - 1) t.

(** [pv_simple(cf, r, tau)] *)
Definition pv_simple (cf r tau : R) : result R :=
  z <- zc_bond 1 tau r true ;;
  Ok (np.round (z * cf) 4).

(** The three pricing functions open with the same lines:
<<
    nbre_payments = int(T*freq)
    CFs = pd.Series([cpn_ann*N*(1/freq) for i in range(nbre_payments)])
    CFs.iloc[-1] += N
>>
    The division [1/freq] is evaluated only when the range is not empty,
    hence with [freq <> 0] ([nbre_payments_freq]), where the divisions of
    Python and of numpy agree: the schedule is a Series of finite values
    or the [IndexError] of the empty Series ([cash_flows_outcomes]). *)
Definition nbre_payments (T freq : R) : Z := Py.int (T * freq).

Definition cash_flows (N cpn_ann T freq : R) : result pd.Series :=
  CFs <- mapM (fun _ : nat => u <- Py.div 1 freq ;; Ok (cpn_ann * N * u))
              (Py.range (nbre_payments T freq)) ;;
  pd.iloc_last_add CFs N.

(** [tl = pd.Series([(i+1)*(1/freq) for i in range(nbre_payments)])] *)
Definition timeline (T freq : R) : result pd.Series :=
  mapM (fun i : nat => u <- Py.div 1 freq ;; Ok (INR (i + 1) * u))
       (Py.range (nbre_payments T freq)).

(** [bond_s_price(N, cpn_ann, T, freq_per_year, zc_rates)].  The only
    exception of the comprehension of discount factors is the
    [IndexError] of [zc_rates.iloc[i]]: a zero denominator gives [inf]
    and the comprehension goes on. *)
Definition bond_s_price (N cpn_ann T freq_per_year : R) (zc_rates : pd.Series)
  : result R :=
  CFs <- cash_flows N cpn_ann T freq_per_year ;;
  zc_prices <- mapM (fun i : nat =>
                       u <- Py.div 1 freq_per_year ;;
                       r <- pd.iloc zc_rates i ;;
                       Ok (zc_bond_np 1 (INR (i + 1) * u) r true))
                    (Py.range (nbre_payments T freq_per_year)) ;;
  np.returned (np.around (pd.fsum (pd.fmul (pd.floats CFs) zc_prices)) 4).

(** The Series built by [create_bond], with its four labels *)
Record Bond : Type := {
  Nominal : R;
  Tenor : R;
  AnnualCoupon : R;
  PaymentsFrequency : R
}.

(** [create_bond(N, T, cpn_ann, freq_per_year)] *)
Definition create_bond (N T cpn_ann freq_per_year : R) : Bond :=
  {| Nominal := N; Tenor := T; AnnualCoupon := cpn_ann;
     PaymentsFrequency := freq_per_year |}.

(** [bond_c_price(bond, yc)].  The fields of the bond are numpy values, so
    nothing raises once the schedule is built: [yc/freq] is reached with
    [freq <> 0] only, and the power and the division are numpy's. *)
Definition bond_c_price (bond : Bond) (yc : R) : result R :=
  let N := Nominal bond in
  let T := Tenor bond in
  let cpn_ann := AnnualCoupon bond in
  let freq := PaymentsFrequency bond in
  CFs <- cash_flows N cpn_ann T freq ;;
  tl <- timeline T freq ;;
  q <- Py.div yc freq ;;
  let dfs := map (fun t => np.pow (1 + q) (t * freq)) tl in
  np.returned (pd.fsum (pd.fdiv (pd.floats CFs) dfs)).

(** [macaulay_duration(bond, yc)].  [den] is whatever float64
    [bond_c_price] returned, finite or not, and [num/den] never raises. *)
Definition macaulay_duration (bond : Bond) (yc : R) : result R :=
  let N := Nominal bond in
  let T := Tenor bond in
  let cpn_ann := AnnualCoupon bond in
  let freq := PaymentsFrequency bond in
  CFs <- cash_flows N cpn_ann T freq ;;
  tl <- timeline T freq ;;
  let num := pd.mul (map (fun t => t * exp (- yc * t)) tl) CFs in
  den <- np.value (bond_c_price bond yc) ;;
  let terms := map (fun x => np.div (Fin x) den) num in
  np.returned (np.around (pd.fsum terms) 4).

(** [modified_macaulay_duration(bond, yc)]: a division of numpy scalars;
    [yc/freq] is reached with [freq <> 0] only, after [macaulay_duration]
    has returned. *)
Definition modified_macaulay_duration (bond : Bond) (yc : R) : result R :=
  let freq := PaymentsFrequency bond in
  d <- np.value (macaulay_duration bond yc) ;;
  q <- Py.div yc freq ;;
  np.returned (np.around (np.div d (Fin (1 + q))) 4).

(** The Series returned by [bond_stats], with its three labels *)
Record Stats : Type := {
  Price : R;
  MacaulayDuration : R;
  ModifiedMacaulay : R
}.

(** [bond_stats(bond, yc)].  The three calls raise together or not at
    all.  [Ok s] is the Series of three finite fields; when a field is
    not finite the Series is returned all the same, and the outcome here
    is the [Err] of its first field that is not finite. *)
Definition bond_stats (bond : Bond) (yc : R) : result Stats :=
  p <- bond_c_price bond yc ;;
  d <- macaulay_duration bond yc ;;
  m <- modified_macaulay_duration bond yc ;;
  Ok {| Price := p; MacaulayDuration := d; ModifiedMacaulay := m |}.

(** ** Closed forms used in the statements *)

(** Cash flow of period [i] (from 0) of a schedule whose last period is
    [m]: the coupon, plus the face value in the last period. *)
Definition amount (N cpn_ann freq : R) (m i : nat) : R :=
  if (i =? m)%nat then cpn_ann * N * (1 / freq) + N
  else cpn_ann * N * (1 / freq).

(** Payment time of period [i] (from 0). *)
Definition payment_time (freq : R) (i : nat) : R := INR (i + 1) * (1 / freq).

(** Compounding factor of period [i] at the periodic yield [yc]. *)
Definition compounding (freq yc : R) (i : nat) : R :=
  powerRZ (1 + yc / freq) (Z.of_nat (i + 1)).

(** Sum of the cash flows of [S m] periods discounted at the yield. *)
Definition price_sum (bond : Bond) (yc : R) (m : nat) : R :=
  pd.sum (map (fun i => amount (Nominal bond) (AnnualCoupon bond)
                               (PaymentsFrequency bond) m i
                        / compounding (PaymentsFrequency bond) yc i)
              (seq 0 (S m))).

(** Sum of the duration terms of [S m] periods, before rounding. *)
Definition duration_sum (bond : Bond) (yc : R) (m : nat) : R :=
  pd.sum (map (fun i => payment_time (PaymentsFrequency bond) i
                        * exp (- yc * payment_time (PaymentsFrequency bond) i)
                        * amount (Nominal bond) (AnnualCoupon bond)
                                 (PaymentsFrequency bond) m i
                        / price_sum bond yc m)
              (seq 0 (S m))).

(** * Properties *)

(** ** The error monad and comprehensions *)

Lemma bind_ok {A B : Type} (a : A) (k : A -> result B) :
  bind (Ok a) k = k a.
Proof. reflexivity. Qed.

Lemma bind_err {A B : Type} (e : exn) (k : A -> result B) :
  bind (Err e) k = Err e.
Proof. reflexivity. Qed.

Lemma mapM_ok {A B : Type} (f : A -> result B) (g : A -> B) (l : list A) :
  (forall a, In a l -> f a = Ok (g a)) -> mapM f l = Ok (map g l).
Proof.
  induction l as [|a l IH]; intros Hf; simpl.
  - reflexivity.
  - rewrite (Hf a) by now left.
    rewrite IH by (intros b Hb; apply Hf; now right).
    reflexivity.
Qed.

(** ** Scalar primitives *)

Lemma div_ok (x y : R) : y <> 0 -> Py.div x y = Ok (x / y).
Proof. intros Hy. unfold Py.div. now destruct (Req_dec_T y 0). Qed.

Lemma pow_base_pos (x e : R) : 0 < x -> Py.pow x e = Ok (Rpower x e).
Proof. intros Hx. unfold Py.pow. now destruct (Rlt_dec 0 x). Qed.

Lemma pow_zero_pos (e : R) : 0 < e -> Py.pow 0 e = Ok 0.
Proof.
  intros He. unfold Py.pow.
  destruct (Rlt_dec 0 0) as [H|_]; [lra|].
  destruct (Req_dec_T 0 0) as [_|H]; [|lra].
  destruct (Rlt_dec 0 e); [reflexivity|lra].
Qed.

Lemma pow_zero_neg (e : R) : e < 0 -> Py.pow 0 e = Err ZeroDivisionError.
Proof.
  intros He. unfold Py.pow.
  destruct (Rlt_dec 0 0) as [H|_]; [lra|].
  destruct (Req_dec_T 0 0) as [_|H]; [|lra].
  destruct (Rlt_dec 0 e); [lra|].
  destruct (Req_dec_T e 0); [lra|reflexivity].
Qed.

Lemma int_nonneg (x : R) : 0 <= x -> Py.int x = Zfloor x.
Proof. intros Hx. unfold Py.int. now destruct (Rle_dec 0 x). Qed.

Lemma int_IZR (z : Z) : Py.int (IZR z) = z.
Proof.
  unfold Py.int. destruct (Rle_dec 0 (IZR z)).
  - apply ZfloorZ.
  - apply Zceil_eq. lra.
Qed.

(** Truncation sends the open interval (-1, 1) to zero. *)
Lemma int_small (x : R) : -1 < x < 1 -> Py.int x = 0%Z.
Proof.
  intros Hx. unfold Py.int. destruct (Rle_dec 0 x).
  - apply Zfloor_eq. simpl. lra.
  - apply Zceil_eq. simpl. lra.
Qed.

Lemma int_le_pos (x : R) : (0 < Py.int x)%Z -> IZR (Py.int x) <= x.
Proof.
  unfold Py.int. destruct (Rle_dec 0 x) as [Hx|Hx]; intros Hn.
  - apply Zfloor_bound.
  - exfalso. assert (Hc := Zceil_bound x).
    assert (Hlt : (Zceil x < 1)%Z) by (apply lt_IZR; lra).
    lia.
Qed.

Lemma range_nonpos (n : Z) : (n <= 0)%Z -> Py.range n = [].
Proof.
  intros Hn. unfold Py.range.
  replace (Z.to_nat n) with 0%nat by lia. reflexivity.
Qed.

Lemma range_length (n : Z) : length (Py.range n) = Z.to_nat n.
Proof. unfold Py.range. apply length_seq. Qed.

Lemma range_In (n : Z) (i : nat) : In i (Py.range n) <-> (i < Z.to_nat n)%nat.
Proof. unfold Py.range. rewrite in_seq. lia. Qed.

(** ** The cash-flow schedule *)

(** No payment is scheduled at frequency zero. *)
Lemma nbre_payments_freq (T freq : R) :
  (0 < nbre_payments T freq)%Z -> freq <> 0.
Proof.
  intros Hn ->. unfold nbre_payments in Hn.
  rewrite Rmult_0_r, (int_IZR 0) in Hn. lia.
Qed.

Lemma nbre_payments_S (T freq : R) :
  (0 < nbre_payments T freq)%Z ->
  exists m, Z.to_nat (nbre_payments T freq) = S m.
Proof. intros Hn. exists (Z.to_nat (nbre_payments T freq) - 1)%nat. lia. Qed.

Lemma iloc_last_add_snoc (s : pd.Series) (a x : R) :
  pd.iloc_last_add (s ++ [a]) x = Ok (s ++ [a + x]).
Proof.
  unfold pd.iloc_last_add.
  destruct (s ++ [a]) eqn:E.
  - now destruct s.
  - rewrite <- E, removelast_last, last_last. reflexivity.
Qed.

(** The coupons before the principal is added: one per period. *)
Lemma coupons_ok (N cpn_ann T freq : R) :
  freq <> 0 ->
  mapM (fun _ : nat => u <- Py.div 1 freq ;; Ok (cpn_ann * N * u))
       (Py.range (nbre_payments T freq))
  = Ok (repeat (cpn_ann * N * (1 / freq)) (Z.to_nat (nbre_payments T freq))).
Proof.
  intros Hf.
  rewrite (mapM_ok _ (fun _ => cpn_ann * N * (1 / freq))).
  - now rewrite map_const, range_length.
  - intros i _. now rewrite div_ok.
Qed.

Lemma cash_flows_ok (N cpn_ann T freq : R) (m : nat) :
  Z.to_nat (nbre_payments T freq) = S m ->
  cash_flows N cpn_ann T freq
  = Ok (repeat (cpn_ann * N * (1 / freq)) m ++ [cpn_ann * N * (1 / freq) + N]).
Proof.
  intros Hm. unfold cash_flows.
  rewrite coupons_ok by (apply (nbre_payments_freq T); lia).
  rewrite Hm, bind_ok. simpl repeat.
  rewrite repeat_cons. apply iloc_last_add_snoc.
Qed.

Lemma cash_flows_empty (N cpn_ann T freq : R) :
  (nbre_payments T freq <= 0)%Z ->
  cash_flows N cpn_ann T freq = Err IndexError.
Proof.
  intros Hn. unfold cash_flows. now rewrite range_nonpos.
Qed.

(** The schedule never divides by zero: it is built, or it is empty and
    [CFs.iloc[-1]] raises [IndexError]. *)
Lemma cash_flows_outcomes (N cpn_ann T freq : R) :
  cash_flows N cpn_ann T freq = Err IndexError \/
  exists CFs, cash_flows N cpn_ann T freq = Ok CFs.
Proof.
  destruct (Z_lt_le_dec 0 (nbre_payments T freq)) as [Hn|Hn].
  - right. destruct (nbre_payments_S T freq Hn) as [m Hm].
    eexists. exact (cash_flows_ok N cpn_ann T freq m Hm).
  - left. now apply cash_flows_empty.
Qed.

Lemma timeline_ok (T freq : R) :
  freq <> 0 ->
  timeline T freq
  = Ok (map (fun i => INR (i + 1) * (1 / freq))
            (Py.range (nbre_payments T freq))).
Proof.
  intros Hf. unfold timeline. apply mapM_ok.
  intros i _. now rewrite div_ok.
Qed.

(** ** C9: the [simple_rate] flag *)

(** C9. The [simple_rate] flag of [zc_bond] is inert: for all [N], [T], [r]
    the call yields the same outcome for both values of the flag, and that
    outcome is the simple-interest quotient [N / (1 + r*T)]; nothing behind
    the flag discounts with compounding. *)
Theorem zc_bond_flag_inert (N T r : R) (b : bool) :
  zc_bond N T r b = zc_bond N T r (negb b) /\
  zc_bond N T r b = Py.div N (1 + r * T) /\
  (1 + r * T <> 0 -> zc_bond N T r b = Ok (N / (1 + r * T))).
Proof.
  repeat split. intros H. unfold zc_bond. now apply div_ok.
Qed.

Lemma zc_bond_flag_inert_witness :
  zc_bond 100 2 (5 / 100) false = Ok (100 / (1 + 5 / 100 * 2)).
Proof.
  apply (zc_bond_flag_inert 100 2 (5 / 100) false). lra.
Defined.

(** ** C10: no payment period *)

Lemma nbre_payments_zero (T freq : R) :
  0 < T * freq < 1 -> nbre_payments T freq = 0%Z.
Proof. intros H. apply int_small. lra. Qed.

(** C10. A bond with positive face value and frequency whose
    [tenor * frequency] lies strictly between 0 and 1 has no payment
    period; every pricing and duration function then stops with the
    [IndexError] of [CFs.iloc[-1]] on the empty cash-flow Series, whatever
    the yield or the zero curve. *)
Theorem empty_schedule_raises (bond : Bond) (yc : R) (zc_rates : pd.Series) :
  0 < Nominal bond ->
  0 < PaymentsFrequency bond ->
  0 < Tenor bond * PaymentsFrequency bond < 1 ->
  bond_s_price (Nominal bond) (AnnualCoupon bond) (Tenor bond)
               (PaymentsFrequency bond) zc_rates = Err IndexError /\
  bond_c_price bond yc = Err IndexError /\
  macaulay_duration bond yc = Err IndexError /\
  modified_macaulay_duration bond yc = Err IndexError /\
  bond_stats bond yc = Err IndexError.
Proof.
  intros _ _ Htf.
  assert (Hcf : cash_flows (Nominal bond) (AnnualCoupon bond) (Tenor bond)
                           (PaymentsFrequency bond) = Err IndexError).
  { apply cash_flows_empty. rewrite nbre_payments_zero; [lia|exact Htf]. }
  assert (Hp : bond_c_price bond yc = Err IndexError).
  { unfold bond_c_price. now rewrite Hcf. }
  assert (Hd : macaulay_duration bond yc = Err IndexError).
  { unfold macaulay_duration. now rewrite Hcf. }
  repeat split.
  - unfold bond_s_price. now rewrite Hcf.
  - exact Hp.
  - exact Hd.
  - unfold modified_macaulay_duration. now rewrite Hd.
  - unfold bond_stats. now rewrite Hp.
Qed.

Lemma empty_schedule_raises_witness :
  bond_s_price 100 (6 / 100) (1 / 4) 2 [5 / 100] = Err IndexError /\
  bond_c_price (create_bond 100 (1 / 4) (6 / 100) 2) (5 / 100) = Err IndexError /\
  macaulay_duration (create_bond 100 (1 / 4) (6 / 100) 2) (5 / 100)
    = Err IndexError /\
  modified_macaulay_duration (create_bond 100 (1 / 4) (6 / 100) 2) (5 / 100)
    = Err IndexError /\
  bond_stats (create_bond 100 (1 / 4) (6 / 100) 2) (5 / 100) = Err IndexError.
Proof.
  apply (empty_schedule_raises (create_bond 100 (1 / 4) (6 / 100) 2)
                               (5 / 100) [5 / 100]); simpl; lra.
Defined.

(** ** C6: shape of the schedule *)

Lemma nth_map_seq {A : Type} (g : nat -> A) (n i : nat) (d : A) :
  (i < n)%nat -> nth i (map g (seq 0 n)) d = g i.
Proof.
  intros Hi.
  rewrite (nth_indep _ d (g 0%nat)) by now rewrite length_map, length_seq.
  rewrite (map_nth g), seq_nth by exact Hi. reflexivity.
Qed.

Lemma nth_timeline (freq : R) (n i : nat) :
  (i < n)%nat ->
  nth i (map (fun i => INR (i + 1) * (1 / freq)) (seq 0 n)) 0
  = (INR i + 1) / freq.
Proof.
  intros Hi. rewrite nth_map_seq by exact Hi.
  rewrite plus_INR. simpl. unfold Rdiv. ring.
Qed.

(** C6. For a bond with at least one payment period, the schedule has
    exactly [int(tenor * frequency)] entries, the count being the
    truncation of the product (not its rounding); every cash flow is
    [coupon_rate * face / frequency] except the last, which adds [face];
    and the payment time of period [i] (from 0) is [(i+1) / frequency]. *)
Theorem schedule_shape (N cpn_ann T freq : R) :
  (0 < nbre_payments T freq)%Z ->
  IZR (nbre_payments T freq) <= T * freq < IZR (nbre_payments T freq) + 1 /\
  exists CFs tl : pd.Series,
    cash_flows N cpn_ann T freq = Ok CFs /\
    timeline T freq = Ok tl /\
    Z.of_nat (length CFs) = nbre_payments T freq /\
    Z.of_nat (length tl) = nbre_payments T freq /\
    (forall i, (i + 1 < length CFs)%nat -> nth i CFs 0 = cpn_ann * N / freq) /\
    nth (length CFs - 1) CFs 0 = cpn_ann * N / freq + N /\
    (forall i, (i < length tl)%nat -> nth i tl 0 = (INR i + 1) / freq).
Proof.
  intros Hn. split.
  - split; [now apply int_le_pos|].
    unfold nbre_payments, Py.int in *.
    destruct (Rle_dec 0 (T * freq)).
    + apply Zfloor_bound.
    + assert (Hc := Zceil_bound (T * freq)).
      assert (Hlt : (Zceil (T * freq) < 1)%Z) by (apply lt_IZR; lra).
      lia.
  - destruct (nbre_payments_S T freq Hn) as [m Hm].
    assert (Hf := nbre_payments_freq T freq Hn).
    exists (repeat (cpn_ann * N * (1 / freq)) m ++ [cpn_ann * N * (1 / freq) + N]).
    exists (map (fun i => INR (i + 1) * (1 / freq)) (Py.range (nbre_payments T freq))).
    split; [now apply cash_flows_ok|].
    split; [now apply timeline_ok|].
    rewrite length_app, repeat_length, length_map, range_length. simpl length.
    split; [lia|]. split; [lia|]. repeat split.
    + intros i Hi. rewrite app_nth1 by (rewrite repeat_length; lia).
      rewrite nth_repeat_lt by lia. unfold Rdiv. ring.
    + replace (m + 1 - 1)%nat with (length (repeat (cpn_ann * N * (1 / freq)) m))
        by (rewrite repeat_length; lia).
      rewrite nth_middle. unfold Rdiv. ring.
    + intros i Hi. unfold Py.range. now apply nth_timeline.
Qed.

Lemma schedule_shape_witness :
  IZR (nbre_payments (27 / 10) 2) <= 27 / 10 * 2
    < IZR (nbre_payments (27 / 10) 2) + 1 /\
  exists CFs tl : pd.Series,
    cash_flows 100 (6 / 100) (27 / 10) 2 = Ok CFs /\
    timeline (27 / 10) 2 = Ok tl /\
    Z.of_nat (length CFs) = nbre_payments (27 / 10) 2 /\
    Z.of_nat (length tl) = nbre_payments (27 / 10) 2 /\
    (forall i, (i + 1 < length CFs)%nat -> nth i CFs 0 = 6 / 100 * 100 / 2) /\
    nth (length CFs - 1) CFs 0 = 6 / 100 * 100 / 2 + 100 /\
    (forall i, (i < length tl)%nat -> nth i tl 0 = (INR i + 1) / 2).
Proof.
  apply (schedule_shape 100 (6 / 100) (27 / 10) 2).
  unfold nbre_payments. rewrite int_nonneg by lra.
  rewrite (Zfloor_eq 5); [lia|simpl; lra].
Defined.

(** Truncation, not rounding: a tenor of 2.9 years paid annually has two
    payments. *)
Lemma nbre_payments_truncates : nbre_payments (29 / 10) 1 = 2%Z.
Proof.
  unfold nbre_payments. rewrite int_nonneg by lra.
  apply Zfloor_eq. simpl. lra.
Qed.

(** ** Series arithmetic *)

Lemma mapM_map {A B C : Type} (f : B -> result C) (g : A -> B) (l : list A) :
  mapM f (map g l) = mapM (fun a => f (g a)) l.
Proof.
  induction l as [|a l IH]; simpl; [reflexivity|]. now rewrite IH.
Qed.

Lemma mul_map {A : Type} (g h : A -> R) (l : list A) :
  pd.mul (map g l) (map h l) = map (fun a => g a * h a) l.
Proof.
  induction l as [|a l IH]; simpl; [reflexivity|]. now rewrite IH.
Qed.

Lemma floats_map {A : Type} (g : A -> R) (l : list A) :
  pd.floats (map g l) = map (fun a => Fin (g a)) l.
Proof. unfold pd.floats. apply map_map. Qed.

Lemma fmul_map {A : Type} (g h : A -> float64) (l : list A) :
  pd.fmul (map g l) (map h l) = map (fun a => np.mul (g a) (h a)) l.
Proof.
  induction l as [|a l IH]; simpl; [reflexivity|]. now rewrite IH.
Qed.

Lemma fdiv_map {A : Type} (g h : A -> float64) (l : list A) :
  pd.fdiv (map g l) (map h l) = map (fun a => np.div (g a) (h a)) l.
Proof.
  induction l as [|a l IH]; simpl; [reflexivity|]. now rewrite IH.
Qed.

(** A Series without [inf] or [nan] sums to the sum of its values. *)
Lemma fsum_fin {A : Type} (g : A -> R) (l : list A) :
  pd.fsum (map (fun a => Fin (g a)) l) = Fin (pd.sum (map g l)).
Proof.
  induction l as [|a l IH]; simpl; [reflexivity|]. now rewrite IH.
Qed.

Lemma fsum_map_ext {A : Type} (g h : A -> float64) (l : list A) :
  (forall a, In a l -> g a = h a) ->
  pd.fsum (map g l) = pd.fsum (map h l).
Proof.
  intros H. f_equal. now apply map_ext_in.
Qed.

(** All-[nan] Series sum to zero. *)
Lemma fsum_nan {A : Type} (l : list A) :
  pd.fsum (map (fun _ => NaN) l) = Fin 0.
Proof.
  induction l as [|a l IH]; simpl; [reflexivity|exact IH].
Qed.

Lemma np_div_fin (a b : R) : b <> 0 -> np.div (Fin a) (Fin b) = Fin (a / b).
Proof. intros Hb. unfold np.div. now destruct (Req_dec_T b 0). Qed.

Lemma np_div_zero (a : R) : np.div (Fin a) (Fin 0) = np.signed_inf a.
Proof. unfold np.div. destruct (Req_dec_T 0 0); [reflexivity|lra]. Qed.

Lemma signed_inf_pos (a : R) : 0 < a -> np.signed_inf a = PInf.
Proof. intros Ha. unfold np.signed_inf. now destruct (Rlt_dec 0 a). Qed.

Lemma signed_inf_neg (a : R) : a < 0 -> np.signed_inf a = NInf.
Proof.
  intros Ha. unfold np.signed_inf.
  destruct (Rlt_dec 0 a); [lra|]. now destruct (Rlt_dec a 0).
Qed.

Lemma signed_inf_zero : np.signed_inf 0 = NaN.
Proof.
  unfold np.signed_inf.
  destruct (Rlt_dec 0 0); [lra|]. destruct (Rlt_dec 0 0); [lra|reflexivity].
Qed.

(** Reading back what a call returned loses nothing. *)
Lemma value_returned (v : float64) : np.value (np.returned v) = Ok v.
Proof. now destruct v. Qed.

Lemma value_raised (c : result R) (e : exn) :
  np.value c = Err e -> c = Err e.
Proof.
  destruct c as [x|e']; simpl; [discriminate|].
  destruct e'; (discriminate || now intros [= <-]).
Qed.

Lemma sum_map_ext {A : Type} (g h : A -> R) (l : list A) :
  (forall a, In a l -> g a = h a) ->
  pd.sum (map g l) = pd.sum (map h l).
Proof.
  intros H. f_equal. now apply map_ext_in.
Qed.

Lemma sum_map_le {A : Type} (g h : A -> R) (l : list A) :
  (forall a, In a l -> g a <= h a) ->
  pd.sum (map g l) <= pd.sum (map h l).
Proof.
  induction l as [|a l IH]; intros H; simpl; [lra|].
  assert (g a <= h a) by (apply H; now left).
  assert (pd.sum (map g l) <= pd.sum (map h l))
    by (apply IH; intros b Hb; apply H; now right).
  unfold pd.sum in *. lra.
Qed.

Lemma sum_map_scal {A : Type} (g : A -> R) (k : R) (l : list A) :
  pd.sum (map (fun a => g a * k) l) = pd.sum (map g l) * k.
Proof.
  induction l as [|a l IH]; simpl; [ring|].
  unfold pd.sum in *. rewrite IH. ring.
Qed.

(** ** Whole-number powers *)

Lemma integral_IZR (z : Z) : Py.integral (IZR z) = true.
Proof.
  unfold Py.integral. rewrite ZfloorZ.
  now destruct (Req_dec_T (IZR z) (IZR z)).
Qed.

Lemma pow_whole (b : R) (z : Z) :
  b <> 0 -> Py.pow b (IZR z) = Ok (powerRZ b z).
Proof.
  intros Hb. unfold Py.pow.
  destruct (Rlt_dec 0 b) as [Hpos|Hneg].
  - now rewrite powerRZ_Rpower.
  - destruct (Req_dec_T b 0) as [H0|_]; [contradiction|].
    now rewrite integral_IZR, ZfloorZ.
Qed.

Lemma np_pow_whole (b : R) (z : Z) :
  b <> 0 -> np.pow b (IZR z) = Fin (powerRZ b z).
Proof.
  intros Hb. unfold np.pow.
  destruct (Rlt_dec 0 b) as [Hpos|Hneg].
  - now rewrite powerRZ_Rpower.
  - destruct (Req_dec_T b 0) as [H0|_]; [contradiction|].
    now rewrite integral_IZR, ZfloorZ.
Qed.

Lemma np_pow_zero_pos (e : R) : 0 < e -> np.pow 0 e = Fin 0.
Proof.
  intros He. unfold np.pow.
  destruct (Rlt_dec 0 0) as [H|_]; [lra|].
  destruct (Req_dec_T 0 0) as [_|H]; [|lra].
  destruct (Rlt_dec 0 e); [reflexivity|lra].
Qed.


Lemma amount_cash_flows (N cpn_ann freq : R) (m : nat) :
  repeat (cpn_ann * N * (1 / freq)) m ++ [cpn_ann * N * (1 / freq) + N]
  = map (amount N cpn_ann freq m) (seq 0 (S m)).
Proof.
  rewrite seq_S, map_app. simpl. f_equal.
  - rewrite <- (length_seq m 0) at 1. rewrite <- map_const.
    apply map_ext_in. intros i Hi. apply in_seq in Hi.
    unfold amount. destruct (Nat.eqb_spec i m); [lia|reflexivity].
  - unfold amount. now rewrite Nat.eqb_refl.
Qed.

Lemma cash_flows_amount (N cpn_ann T freq : R) (m : nat) :
  Z.to_nat (nbre_payments T freq) = S m ->
  cash_flows N cpn_ann T freq
  = Ok (map (amount N cpn_ann freq m) (seq 0 (S m))).
Proof.
  intros Hm. rewrite <- amount_cash_flows. now apply cash_flows_ok.
Qed.

Lemma timeline_payment_time (T freq : R) (m : nat) :
  Z.to_nat (nbre_payments T freq) = S m ->
  timeline T freq = Ok (map (payment_time freq) (seq 0 (S m))).
Proof.
  intros Hm. rewrite timeline_ok by (apply (nbre_payments_freq T); lia).
  unfold Py.range. now rewrite Hm.
Qed.

Lemma payment_time_periods (freq : R) (i : nat) :
  freq <> 0 -> payment_time freq i * freq = IZR (Z.of_nat (i + 1)).
Proof.
  intros Hf. unfold payment_time. rewrite <- INR_IZR_INZ. now field.
Qed.

(** ** The yield-based price in closed form *)

(** Whatever the yield, a bond with [S m] periods is priced without any
    exception: the value returned is the [nan]-skipping sum of the cash
    flows divided by the compounding factors. *)
Lemma bond_c_price_value (bond : Bond) (yc : R) (m : nat) :
  Z.to_nat (nbre_payments (Tenor bond) (PaymentsFrequency bond)) = S m ->
  bond_c_price bond yc
  = np.returned
      (pd.fsum (map (fun i => np.div (Fin (amount (Nominal bond)
                                                  (AnnualCoupon bond)
                                                  (PaymentsFrequency bond) m i))
                                     (np.pow (1 + yc / PaymentsFrequency bond)
                                             (IZR (Z.of_nat (i + 1)))))
                    (seq 0 (S m)))).
Proof.
  intros Hm.
  set (N := Nominal bond). set (cpn_ann := AnnualCoupon bond).
  set (freq := PaymentsFrequency bond) in *.
  assert (Hf : freq <> 0) by (apply (nbre_payments_freq (Tenor bond)); lia).
  unfold bond_c_price. fold N cpn_ann freq.
  rewrite (cash_flows_amount _ _ _ _ m Hm), (timeline_payment_time _ _ m Hm).
  rewrite !bind_ok, div_ok, bind_ok by exact Hf.
  cbv zeta. rewrite floats_map, map_map, fdiv_map.
  f_equal. apply fsum_map_ext. intros i _.
  now rewrite payment_time_periods by exact Hf.
Qed.

Lemma bond_c_price_closed (bond : Bond) (yc : R) (m : nat) :
  Z.to_nat (nbre_payments (Tenor bond) (PaymentsFrequency bond)) = S m ->
  1 + yc / PaymentsFrequency bond <> 0 ->
  bond_c_price bond yc = Ok (price_sum bond yc m).
Proof.
  intros Hm Hb.
  rewrite (bond_c_price_value bond yc m Hm).
  unfold price_sum, compounding.
  rewrite (fsum_map_ext _
             (fun i => Fin (amount (Nominal bond) (AnnualCoupon bond)
                                   (PaymentsFrequency bond) m i
                            / powerRZ (1 + yc / PaymentsFrequency bond)
                                      (Z.of_nat (i + 1))))).
  - now rewrite fsum_fin.
  - intros i _. rewrite np_pow_whole by exact Hb.
    apply np_div_fin. now apply powerRZ_NOR.
Qed.

(** ** C5: the yield-based price *)






(** ** The yield-based price at [1 + yc/freq = 0] *)

(** Every compounding factor is then [0.0] and every cash flow is divided
    by it: nothing is raised, and the value returned is the [nan]-skipping
    sum of the infinities that carry the signs of the cash flows. *)
Lemma bond_c_price_zero_base (bond : Bond) (yc : R) (m : nat) :
  Z.to_nat (nbre_payments (Tenor bond) (PaymentsFrequency bond)) = S m ->
  1 + yc / PaymentsFrequency bond = 0 ->
  bond_c_price bond yc
  = np.returned
      (pd.fsum (map (fun i => np.signed_inf (amount (Nominal bond)
                                                    (AnnualCoupon bond)
                                                    (PaymentsFrequency bond)
                                                    m i))
                    (seq 0 (S m)))).
Proof.
  intros Hm Hb. rewrite (bond_c_price_value bond yc m Hm), Hb.
  f_equal. apply fsum_map_ext. intros i _.
  rewrite np_pow_zero_pos by (apply IZR_lt; lia).
  apply np_div_zero.
Qed.

(** A Series of [inf] and [nan] with at least one [inf] sums to [inf]. *)
Lemma fsum_inf_or_nan (l : pd.Floats) :
  (forall x, In x l -> x = PInf \/ x = NaN) ->
  pd.fsum l = (if existsb (fun x => match x with PInf => true | _ => false end) l
               then PInf else Fin 0).
Proof.
  induction l as [|x l IH]; intros H; [reflexivity|].
  assert (IH' := IH (fun y Hy => H y (or_intror Hy))).
  destruct (H x (or_introl eq_refl)) as [-> | ->]; simpl.
  - rewrite IH'. now destruct (existsb _ l).
  - exact IH'.
Qed.

(** Positive face value and non-negative coupon: every term is [inf] or
    [nan], the last one is [inf], and so is the price. *)
Lemma bond_c_price_zero_base_inf (bond : Bond) (yc : R) (m : nat) :
  Z.to_nat (nbre_payments (Tenor bond) (PaymentsFrequency bond)) = S m ->
  1 + yc / PaymentsFrequency bond = 0 ->
  0 < Nominal bond ->
  0 <= AnnualCoupon bond * Nominal bond * (1 / PaymentsFrequency bond) ->
  bond_c_price bond yc = Err ReturnsInf.
Proof.
  intros Hm Hb HN Hc.
  rewrite (bond_c_price_zero_base bond yc m Hm Hb), fsum_inf_or_nan.
  - rewrite seq_S, map_app, existsb_app. cbn [map existsb Nat.add].
    unfold amount at 2. rewrite Nat.eqb_refl.
    rewrite signed_inf_pos by lra.
    now rewrite orb_true_r.
  - intros x Hx. apply in_map_iff in Hx. destruct Hx as [i [<- _]].
    unfold amount, np.signed_inf.
    destruct (i =? m)%nat;
      repeat match goal with
             | |- context [Rlt_dec ?a ?b] => destruct (Rlt_dec a b)
             end; try lra; tauto.
Qed.

(** Face value 0: every term is [0.0 / 0.0], the sum skips them all. *)
Lemma bond_c_price_zero_base_zero (bond : Bond) (yc : R) (m : nat) :
  Z.to_nat (nbre_payments (Tenor bond) (PaymentsFrequency bond)) = S m ->
  1 + yc / PaymentsFrequency bond = 0 ->
  Nominal bond = 0 ->
  bond_c_price bond yc = Ok 0.
Proof.
  intros Hm Hb HN.
  rewrite (bond_c_price_zero_base bond yc m Hm Hb).
  rewrite (fsum_map_ext _ (fun _ => NaN)); [now rewrite fsum_nan|].
  intros i _. unfold amount. rewrite HN.
  destruct (i =? m)%nat;
    rewrite ?Rmult_0_r, ?Rmult_0_l, ?Rplus_0_r; apply signed_inf_zero.
Qed.

(** ** Rounding *)

Lemma rint_cases (x : R) :
  np.rint x = Zfloor x \/ np.rint x = (Zfloor x + 1)%Z.
Proof.
  unfold np.rint.
  destruct (Rlt_dec (x - IZR (Zfloor x)) (1 / 2)); [now left|].
  destruct (Rlt_dec (1 / 2) (x - IZR (Zfloor x))); [now right|].
  destruct (Z.even (Zfloor x)); [now left|now right].
Qed.

(** A real closer than one half to a whole number rounds to it. *)
Lemma rint_near (x : R) (k : Z) :
  IZR k - 1 / 2 < x < IZR k + 1 / 2 -> np.rint x = k.
Proof.
  intros [Hlo Hhi]. unfold np.rint.
  destruct (Rle_dec (IZR k) x) as [Hk|Hk].
  - rewrite (Zfloor_eq k) by lra.
    destruct (Rlt_dec (x - IZR k) (1 / 2)); [reflexivity|lra].
  - rewrite (Zfloor_eq (k - 1)) by (rewrite minus_IZR; lra).
    rewrite minus_IZR.
    destruct (Rlt_dec (x - (IZR k - 1)) (1 / 2)); [lra|].
    destruct (Rlt_dec (1 / 2) (x - (IZR k - 1))); [lia|lra].
Qed.

Lemma rint_IZR (k : Z) : np.rint (IZR k) = k.
Proof. apply rint_near. lra. Qed.

Lemma rint_le (x y : R) : x <= y -> (np.rint x <= np.rint y)%Z.
Proof.
  intros Hxy.
  assert (Hf := Zfloor_le x y Hxy).
  destruct (Z.eq_dec (Zfloor x) (Zfloor y)) as [E|E].
  - unfold np.rint. rewrite E.
    destruct (Rlt_dec (x - IZR (Zfloor y)) (1 / 2));
      destruct (Rlt_dec (y - IZR (Zfloor y)) (1 / 2)); try lia; try lra;
      destruct (Rlt_dec (1 / 2) (x - IZR (Zfloor y)));
      destruct (Rlt_dec (1 / 2) (y - IZR (Zfloor y))); try lia; try lra;
      destruct (Z.even (Zfloor y)); lia.
  - destruct (rint_cases x) as [-> | ->], (rint_cases y) as [-> | ->]; lia.
Qed.

Lemma pow10_pos (d : nat) : 0 < 10 ^ d.
Proof. apply pow_lt. lra. Qed.

Lemma round_le (x y : R) (d : nat) : x <= y -> np.round x d <= np.round y d.
Proof.
  intros Hxy. unfold np.round.
  assert (Hd := pow10_pos d).
  apply Rmult_le_compat_r; [left; now apply Rinv_0_lt_compat|].
  apply IZR_le, rint_le. now apply Rmult_le_compat_r; [left|].
Qed.

(** Values with at most [d] decimals are fixed by rounding. *)
Lemma round_grid (k : Z) (d : nat) :
  np.round (IZR k / 10 ^ d) d = IZR k / 10 ^ d.
Proof.
  unfold np.round. assert (Hd := pow10_pos d).
  replace (IZR k / 10 ^ d * 10 ^ d) with (IZR k) by (field; lra).
  now rewrite rint_IZR.
Qed.

Lemma round_idem (x : R) (d : nat) :
  np.round (np.round x d) d = np.round x d.
Proof. unfold np.round at 2 3. apply round_grid. Qed.

Lemma round_zero (d : nat) : np.round 0 d = 0.
Proof.
  replace 0 with (IZR 0 / 10 ^ d) at 1.
  - rewrite round_grid. unfold Rdiv. ring.
  - unfold Rdiv. ring.
Qed.

Lemma round_near (x : R) (k : Z) (d : nat) :
  (IZR k - 1 / 2) / 10 ^ d < x < (IZR k + 1 / 2) / 10 ^ d ->
  np.round x d = IZR k / 10 ^ d.
Proof.
  intros [Hlo Hhi]. unfold np.round. assert (Hd := pow10_pos d).
  rewrite (rint_near _ k); [reflexivity|]. split.
  - apply (Rmult_lt_compat_r (10 ^ d)) in Hlo; [|exact Hd].
    replace ((IZR k - 1 / 2) / 10 ^ d * 10 ^ d) with (IZR k - 1 / 2) in Hlo
      by (field; lra).
    exact Hlo.
  - apply (Rmult_lt_compat_r (10 ^ d)) in Hhi; [|exact Hd].
    replace ((IZR k + 1 / 2) / 10 ^ d * 10 ^ d) with (IZR k + 1 / 2) in Hhi
      by (field; lra).
    exact Hhi.
Qed.

(** Rounding to 4 decimals, with the bounds in decimal form. *)
Lemma round4_near (x : R) (k : Z) :
  (IZR k - 1 / 2) / 10000 < x < (IZR k + 1 / 2) / 10000 ->
  np.round x 4 = IZR k / 10000.
Proof.
  intros H. replace 10000 with (10 ^ 4) in * by (simpl; lra).
  now apply round_near.
Qed.

(** ** The curve-based price *)

Lemma mapM_ext_in {A B : Type} (f g : A -> result B) (l : list A) :
  (forall a, In a l -> f a = g a) -> mapM f l = mapM g l.
Proof.
  induction l as [|a l IH]; intros H; simpl; [reflexivity|].
  rewrite (H a) by now left.
  rewrite IH by (intros b Hb; apply H; now right).
  reflexivity.
Qed.

Lemma iloc_nth (s : pd.Series) (i : nat) :
  (i < length s)%nat -> pd.iloc s i = Ok (nth i s 0).
Proof.
  intros Hi. unfold pd.iloc. now rewrite (nth_error_nth' s 0 Hi).
Qed.

Lemma iloc_out (s : pd.Series) (i : nat) :
  (length s <= i)%nat -> pd.iloc s i = Err IndexError.
Proof.
  intros Hi. unfold pd.iloc.
  now rewrite (proj2 (nth_error_None s i) Hi).
Qed.

(** With a rate for every period nothing is raised: the value returned is
    the rounded [nan]-skipping sum of the cash flows times the discount
    factors, whatever the denominators. *)
Lemma bond_s_price_value (N cpn_ann T freq : R) (zc_rates : pd.Series)
      (m : nat) :
  Z.to_nat (nbre_payments T freq) = S m ->
  (S m <= length zc_rates)%nat ->
  bond_s_price N cpn_ann T freq zc_rates
  = np.returned
      (np.around
         (pd.fsum (map (fun i => np.mul (Fin (amount N cpn_ann freq m i))
                                        (zc_bond_np 1 (payment_time freq i)
                                                    (nth i zc_rates 0) true))
                       (seq 0 (S m)))) 4).
Proof.
  intros Hm Hlen.
  assert (Hf : freq <> 0) by (apply (nbre_payments_freq T); lia).
  unfold bond_s_price.
  rewrite (cash_flows_amount _ _ _ _ m Hm), bind_ok.
  unfold Py.range. rewrite Hm.
  rewrite (mapM_ok _ (fun i => zc_bond_np 1 (payment_time freq i)
                                          (nth i zc_rates 0) true)).
  - now rewrite bind_ok, floats_map, fmul_map.
  - intros i Hi. apply in_seq in Hi.
    rewrite div_ok, bind_ok by exact Hf.
    now rewrite iloc_nth, bind_ok by lia.
Qed.

(** With a rate for every period and no vanishing denominator, the
    curve-based price is the rounded sum of the discounted cash flows. *)
Lemma bond_s_price_closed (N cpn_ann T freq : R) (zc_rates : pd.Series)
      (m : nat) :
  Z.to_nat (nbre_payments T freq) = S m ->
  (S m <= length zc_rates)%nat ->
  (forall i, (i <= m)%nat -> 1 + nth i zc_rates 0 * payment_time freq i <> 0) ->
  bond_s_price N cpn_ann T freq zc_rates
  = Ok (np.round
          (pd.sum (map (fun i => amount N cpn_ann freq m i
                                 * (1 / (1 + nth i zc_rates 0
                                             * payment_time freq i)))
                       (seq 0 (S m)))) 4).
Proof.
  intros Hm Hlen Hnz.
  rewrite (bond_s_price_value _ _ _ _ _ m Hm Hlen).
  rewrite (fsum_map_ext _
             (fun i => Fin (amount N cpn_ann freq m i
                            * (1 / (1 + nth i zc_rates 0
                                        * payment_time freq i))))).
  - now rewrite fsum_fin.
  - intros i Hi. apply in_seq in Hi.
    unfold zc_bond_np. rewrite np_div_fin by (apply Hnz; lia). reflexivity.
Qed.

(** ** C3: the worked example *)

Lemma nbre_payments_whole (T freq : R) (z : Z) :
  T * freq = IZR z -> nbre_payments T freq = z.
Proof. intros H. unfold nbre_payments. rewrite H. apply int_IZR. Qed.

Lemma example_price_sum :
  pd.sum (map (fun i => amount 100 (6 / 100) 1 1 i
                        * (1 / (1 + nth i [5 / 100; 55 / 1000] 0
                                    * payment_time 1 i)))
              (seq 0 2))
  = 6 / (1 + 5 / 100) + 106 / (1 + 55 / 1000 * 2).
Proof.
  unfold pd.sum, amount, payment_time. simpl. field.
Qed.

Lemma example_price_value :
  bond_s_price 100 (6 / 100) 2 1 [5 / 100; 55 / 1000]
  = Ok (np.round (6 / (1 + 5 / 100) + 106 / (1 + 55 / 1000 * 2)) 4).
Proof.
  rewrite (bond_s_price_closed _ _ _ _ _ 1).
  - now rewrite example_price_sum.
  - rewrite (nbre_payments_whole 2 1 2); [reflexivity|simpl; lra].
  - simpl. lia.
  - intros i Hi. unfold payment_time.
    destruct i as [|[|i]]; [simpl; lra|simpl; lra|lia].
Qed.

(** The code returns 101.2098 where the worked example says 100.5134. *)
Lemma example_price_not_100_5134 :
  bond_s_price 100 (6 / 100) 2 1 [5 / 100; 55 / 1000]
  <> Ok (1005134 / 10000).
Proof.
  rewrite example_price_value.
  rewrite (round4_near _ 1012098) by lra.
  intros [= H]. lra.
Qed.

(** C3 (amended). For the bond with face 100, tenor 2, annual coupon rate
    0.06 and frequency 1 priced against the zero curve [0.05, 0.055], the
    curve-based price is [6/1.05 + 106/(1 + 0.055*2)] rounded to 4
    decimals, and that value is 101.2098. *)
Theorem example_price :
  bond_s_price 100 (6 / 100) 2 1 [5 / 100; 55 / 1000]
  = Ok (np.round (6 / (1 + 5 / 100) + 106 / (1 + 55 / 1000 * 2)) 4) /\
  bond_s_price 100 (6 / 100) 2 1 [5 / 100; 55 / 1000]
  = Ok (1012098 / 10000).
Proof.
  split; [exact example_price_value|].
  rewrite example_price_value.
  now rewrite (round4_near _ 1012098) by lra.
Qed.

(** ** C2: curves of the wrong length *)

(** A longer curve is accepted: with three rates for two payments the
    third rate is ignored and a price is returned. *)
Lemma longer_curve_returns_price :
  (Z.of_nat (length [5 / 100; 55 / 1000; 7 / 100]) <> nbre_payments 2 1)%Z /\
  bond_s_price 100 (6 / 100) 2 1 [5 / 100; 55 / 1000; 7 / 100]
  = Ok (1012098 / 10000).
Proof.
  split.
  - rewrite (nbre_payments_whole 2 1 2); [simpl; lia|simpl; lra].
  - rewrite (bond_s_price_closed _ _ _ _ _ 1).
    + replace (pd.sum _) with (6 / (1 + 5 / 100) + 106 / (1 + 55 / 1000 * 2))
        by (unfold pd.sum, amount, payment_time; simpl; field).
      now rewrite (round4_near _ 1012098) by lra.
    + rewrite (nbre_payments_whole 2 1 2); [reflexivity|simpl; lra].
    + simpl. lia.
    + intros i Hi. unfold payment_time.
      destruct i as [|[|i]]; [simpl; lra|simpl; lra|lia].
Qed.

(** The comprehension stops at its first failing element. *)
Lemma mapM_err_at {A B : Type} (f : A -> result B) (l1 l2 : list A) (a : A)
      (e : exn) :
  (forall x, In x l1 -> exists y, f x = Ok y) ->
  f a = Err e ->
  mapM f (l1 ++ a :: l2) = Err e.
Proof.
  induction l1 as [|x l1 IH]; intros Hok Ha; simpl.
  - now rewrite Ha.
  - destruct (Hok x (or_introl eq_refl)) as [y ->].
    rewrite bind_ok, IH; [reflexivity| |exact Ha].
    intros z Hz. apply Hok. now right.
Qed.

(** A curve with fewer rates than payments: the rates that are there are
    discounted without any exception, whatever their denominators, and
    the first missing one raises [IndexError]. *)
Lemma bond_s_price_short (N cpn_ann T freq : R) (zc_rates : pd.Series) :
  (Z.of_nat (length zc_rates) < nbre_payments T freq)%Z ->
  bond_s_price N cpn_ann T freq zc_rates = Err IndexError.
Proof.
  intros Hlen.
  assert (Hn : (0 < nbre_payments T freq)%Z) by lia.
  destruct (nbre_payments_S T freq Hn) as [m Hm].
  assert (Hf := nbre_payments_freq T freq Hn).
  unfold bond_s_price.
  rewrite (cash_flows_amount _ _ _ _ m Hm), bind_ok.
  unfold Py.range. rewrite Hm.
  set (k := length zc_rates) in *.
  replace (S m) with (k + S (m - k))%nat by lia.
  rewrite seq_app. cbn [seq Nat.add].
  rewrite (mapM_err_at _ _ _ _ IndexError); [reflexivity| |].
  - intros i Hi. apply in_seq in Hi.
    rewrite div_ok, bind_ok by exact Hf.
    rewrite iloc_nth, bind_ok by (fold k; lia). now eexists.
  - rewrite div_ok, bind_ok by exact Hf.
    now rewrite iloc_out by (fold k; lia).
Qed.

Lemma bond_s_price_extra (N cpn_ann T freq : R) (zc_rates extra : pd.Series) :
  (nbre_payments T freq <= Z.of_nat (length zc_rates))%Z ->
  bond_s_price N cpn_ann T freq (zc_rates ++ extra)
  = bond_s_price N cpn_ann T freq zc_rates.
Proof.
  intros Hlen. unfold bond_s_price.
  destruct (cash_flows N cpn_ann T freq) as [CFs|e]; [|reflexivity].
  rewrite !bind_ok. f_equal. apply mapM_ext_in.
  intros i Hi. apply range_In in Hi.
  destruct (Py.div 1 freq) as [u|e]; [|reflexivity].
  rewrite !bind_ok. unfold pd.iloc.
  now rewrite nth_error_app1 by lia.
Qed.

(** C2 (amended). There is no length check, and no dedicated
    length-mismatch error.  A bond without a payment period raises
    [IndexError] whatever the curve.  For a bond with [n >= 1] payment
    periods: a zero curve with fewer than [n] rates raises [IndexError]
    (from [zc_rates.iloc[i]]), whatever its rates, and no price is
    returned; a zero curve with [n] rates or more never raises: the rates
    beyond the [n]-th are ignored and the value returned is the 4-decimal
    rounding of the [nan]-skipping sum of the cash flows times
    [1 / (1 + r_i * t_i)] over the first [n] rates, which is the finite
    rounded sum of the discounted cash flows when no denominator
    [1 + r_i * t_i] is zero. *)
Theorem bond_s_price_curve_length (N cpn_ann T freq : R) (zc_rates : pd.Series) :
  ((nbre_payments T freq <= 0)%Z ->
   bond_s_price N cpn_ann T freq zc_rates = Err IndexError) /\
  ((Z.of_nat (length zc_rates) < nbre_payments T freq)%Z ->
   bond_s_price N cpn_ann T freq zc_rates = Err IndexError) /\
  (forall extra : pd.Series,
     (nbre_payments T freq <= Z.of_nat (length zc_rates))%Z ->
     bond_s_price N cpn_ann T freq (zc_rates ++ extra)
     = bond_s_price N cpn_ann T freq zc_rates) /\
  (forall m : nat,
     Z.to_nat (nbre_payments T freq) = S m ->
     (S m <= length zc_rates)%nat ->
     bond_s_price N cpn_ann T freq zc_rates
     = np.returned
         (np.around
            (pd.fsum (map (fun i => np.mul (Fin (amount N cpn_ann freq m i))
                                           (np.div (Fin 1)
                                                   (Fin (1 + nth i zc_rates 0
                                                         * payment_time freq i))))
                          (seq 0 (S m)))) 4) /\
     ((forall i, (i <= m)%nat ->
                 1 + nth i zc_rates 0 * payment_time freq i <> 0) ->
      bond_s_price N cpn_ann T freq zc_rates
      = Ok (np.round
              (pd.sum (map (fun i => amount N cpn_ann freq m i
                                     * (1 / (1 + nth i zc_rates 0
                                                 * payment_time freq i)))
                           (seq 0 (S m)))) 4))).
Proof.
  split.
  { intros Hn. unfold bond_s_price. now rewrite cash_flows_empty. }
  split; [apply bond_s_price_short|].
  split; [intros extra; apply bond_s_price_extra|].
  intros m Hm Hlen. split.
  - exact (bond_s_price_value _ _ _ _ _ m Hm Hlen).
  - now apply bond_s_price_closed.
Qed.

Lemma bond_s_price_curve_length_witness :
  bond_s_price 100 (6 / 100) (1 / 2) 1 [5 / 100] = Err IndexError /\
  bond_s_price 100 (6 / 100) 2 1 [- 1] = Err IndexError /\
  bond_s_price 100 (6 / 100) 2 1 ([5 / 100; 55 / 1000] ++ [7 / 100])
  = bond_s_price 100 (6 / 100) 2 1 [5 / 100; 55 / 1000] /\
  bond_s_price 100 (6 / 100) 2 1 [5 / 100; 55 / 1000; 7 / 100]
  = Ok (np.round
          (pd.sum (map (fun i => amount 100 (6 / 100) 1 1 i
                                 * (1 / (1 + nth i [5 / 100; 55 / 1000; 7 / 100] 0
                                             * payment_time 1 i)))
                       (seq 0 2))) 4).
Proof.
  assert (Hn : nbre_payments 2 1 = 2%Z)
    by (apply nbre_payments_whole; simpl; lra).
  assert (H0 : nbre_payments (1 / 2) 1 = 0%Z)
    by (apply nbre_payments_zero; lra).
  split; [|split; [|split]].
  - apply (proj1 (bond_s_price_curve_length 100 (6 / 100) (1 / 2) 1 [5 / 100])).
    rewrite H0. lia.
  - apply (proj1 (proj2 (bond_s_price_curve_length 100 (6 / 100) 2 1 [- 1]))).
    rewrite Hn. simpl. lia.
  - apply (bond_s_price_curve_length 100 (6 / 100) 2 1 [5 / 100; 55 / 1000]).
    rewrite Hn. simpl. lia.
  - apply (bond_s_price_curve_length 100 (6 / 100) 2 1
                                     [5 / 100; 55 / 1000; 7 / 100]).
    + now rewrite Hn.
    + simpl. lia.
    + intros i Hi. unfold payment_time.
      destruct i as [|[|i]]; [simpl; lra|simpl; lra|lia].
Defined.

(** ** The durations in closed form *)

(** With a non-zero price, the Macaulay duration of a schedule of [S m]
    periods is the rounded sum of the duration terms. *)
Lemma macaulay_duration_closed (bond : Bond) (yc : R) (m : nat) :
  Z.to_nat (nbre_payments (Tenor bond) (PaymentsFrequency bond)) = S m ->
  1 + yc / PaymentsFrequency bond <> 0 ->
  price_sum bond yc m <> 0 ->
  macaulay_duration bond yc = Ok (np.round (duration_sum bond yc m) 4).
Proof.
  intros Hm Hb Hnz.
  unfold macaulay_duration, duration_sum.
  rewrite (cash_flows_amount _ _ _ _ m Hm), (timeline_payment_time _ _ m Hm).
  rewrite !bind_ok, (bond_c_price_closed bond yc m Hm Hb).
  cbn [np.value]. rewrite bind_ok. cbv zeta.
  rewrite map_map, mul_map, map_map.
  rewrite (fsum_map_ext _
             (fun i => Fin (payment_time (PaymentsFrequency bond) i
                            * exp (- yc * payment_time (PaymentsFrequency bond) i)
                            * amount (Nominal bond) (AnnualCoupon bond)
                                     (PaymentsFrequency bond) m i
                            / price_sum bond yc m))).
  - now rewrite fsum_fin.
  - intros i _. now apply np_div_fin.
Qed.

Lemma modified_macaulay_duration_closed (bond : Bond) (yc d : R) :
  macaulay_duration bond yc = Ok d ->
  PaymentsFrequency bond <> 0 ->
  1 + yc / PaymentsFrequency bond <> 0 ->
  modified_macaulay_duration bond yc
  = Ok (np.round (d / (1 + yc / PaymentsFrequency bond)) 4).
Proof.
  intros Hd Hf Hb. unfold modified_macaulay_duration.
  rewrite Hd. cbn [np.value]. rewrite bind_ok, div_ok, bind_ok by exact Hf.
  now rewrite np_div_fin.
Qed.

(** ** C8: the aggregate *)

Lemma bond_stats_price_field (bond : Bond) (yc : R) (s : Stats) :
  bond_stats bond yc = Ok s -> bond_c_price bond yc = Ok (Price s).
Proof.
  unfold bond_stats.
  destruct (bond_c_price bond yc) as [p|e]; [|discriminate].
  destruct (macaulay_duration bond yc) as [d|e]; [|discriminate].
  destruct (modified_macaulay_duration bond yc) as [mm|e]; [|discriminate].
  simpl. now intros [= <-].
Qed.

Lemma bond_stats_returns (bond : Bond) (yc : R) :
  (0 < nbre_payments (Tenor bond) (PaymentsFrequency bond))%Z ->
  1 + yc / PaymentsFrequency bond <> 0 ->
  exists p, bond_c_price bond yc = Ok p /\
    (p <> 0 ->
     exists d mm, bond_stats bond yc
                  = Ok {| Price := p; MacaulayDuration := d;
                          ModifiedMacaulay := mm |}).
Proof.
  intros Hn Hb.
  destruct (nbre_payments_S _ _ Hn) as [m Hm].
  assert (Hf := nbre_payments_freq _ _ Hn).
  eexists. split; [exact (bond_c_price_closed bond yc m Hm Hb)|].
  intros Hp.
  assert (Hd := macaulay_duration_closed bond yc m Hm Hb Hp).
  assert (Hmm := modified_macaulay_duration_closed bond yc _ Hd Hf Hb).
  do 2 eexists. unfold bond_stats.
  rewrite (bond_c_price_closed bond yc m Hm Hb), bind_ok.
  rewrite Hd, bind_ok, Hmm, bind_ok. reflexivity.
Qed.

Lemma one_year_bond_price :
  bond_c_price (create_bond 100 1 (6 / 100) 1) (7 / 100) = Ok (10600 / 107).
Proof.
  rewrite (bond_c_price_closed _ _ 0).
  - f_equal. unfold price_sum, compounding, pd.sum, amount. simpl. field.
  - simpl. rewrite (nbre_payments_whole 1 1 1); [reflexivity|lra].
  - simpl. lra.
Qed.

(** For the one-year 6% annual bond at a 7% yield the [Price] field is
    [106/1.07 = 99.0654205...], not its rounding 99.0654. *)
Lemma bond_stats_price_not_rounded :
  exists s p,
    bond_stats (create_bond 100 1 (6 / 100) 1) (7 / 100) = Ok s /\
    bond_c_price (create_bond 100 1 (6 / 100) 1) (7 / 100) = Ok p /\
    Price s <> np.round p 4.
Proof.
  destruct (bond_stats_returns (create_bond 100 1 (6 / 100) 1) (7 / 100))
    as [p [Hp Hs]].
  - simpl. rewrite (nbre_payments_whole 1 1 1); [lia|lra].
  - simpl. lra.
  - rewrite one_year_bond_price in Hp. injection Hp as <-.
    destruct Hs as [d [mm Hs]]; [lra|].
    eexists. exists (10600 / 107).
    split; [exact Hs|]. split; [exact one_year_bond_price|].
    simpl. rewrite (round4_near _ 990654) by lra. lra.
Qed.

(** C8 (amended). The [Price] field of the aggregate returned by
    [bond_stats] is the yield-based price itself, at full precision: it is
    not rounded, unlike the two duration fields.  The aggregate is
    returned for every bond with a payment period and a yield with
    [1 + yield/frequency] not zero whose price is not zero. *)
Theorem bond_stats_price (bond : Bond) (yc : R) :
  (forall s, bond_stats bond yc = Ok s ->
             bond_c_price bond yc = Ok (Price s)) /\
  ((0 < nbre_payments (Tenor bond) (PaymentsFrequency bond))%Z ->
   1 + yc / PaymentsFrequency bond <> 0 ->
   exists p, bond_c_price bond yc = Ok p /\
     (p <> 0 ->
      exists d mm, bond_stats bond yc
                   = Ok {| Price := p; MacaulayDuration := d;
                           ModifiedMacaulay := mm |})).
Proof.
  split.
  - apply bond_stats_price_field.
  - apply bond_stats_returns.
Qed.

Lemma bond_stats_price_witness :
  exists p, bond_c_price (create_bond 100 1 (6 / 100) 1) (7 / 100) = Ok p /\
    (p <> 0 ->
     exists d mm, bond_stats (create_bond 100 1 (6 / 100) 1) (7 / 100)
                  = Ok {| Price := p; MacaulayDuration := d;
                          ModifiedMacaulay := mm |}).
Proof.
  apply (bond_stats_price (create_bond 100 1 (6 / 100) 1) (7 / 100)).
  - simpl. rewrite (nbre_payments_whole 1 1 1); [lia|lra].
  - simpl. lra.
Defined.

(** ** C4: the rate conversions *)

Lemma Rpower_pos (x e : R) : 0 < Rpower x e.
Proof. unfold Rpower. apply exp_pos. Qed.

Lemma round_trip_pos (r t f : R) :
  0 < t * f -> 0 < 1 + r * t ->
  exists c, simple_to_comp r t f = Ok c /\ comp_to_simple c t f = Ok r.
Proof.
  intros Htf Hb.
  assert (Ht : t <> 0) by (intros ->; lra).
  assert (Hf : f <> 0) by (intros ->; lra).
  exists ((Rpower (1 + r * t) (1 / (t * f)) - 1) * f). split.
  - unfold simple_to_comp.
    rewrite div_ok, bind_ok by lra. now rewrite pow_base_pos, bind_ok.
  - unfold comp_to_simple. rewrite div_ok, bind_ok by exact Hf.
    replace (1 + (Rpower (1 + r * t) (1 / (t * f)) - 1) * f / f)
      with (Rpower (1 + r * t) (1 / (t * f))) by (field; exact Hf).
    rewrite pow_base_pos, bind_ok by apply Rpower_pos.
    rewrite Rpower_mult.
    replace (1 / (t * f) * (t * f)) with 1 by (field; split; assumption).
    rewrite Rpower_1, div_ok by assumption.
    f_equal. now field.
Qed.

Lemma round_trip_zero (r t f : R) :
  0 < t * f -> 1 + r * t = 0 ->
  exists c, simple_to_comp r t f = Ok c /\ comp_to_simple c t f = Ok r.
Proof.
  intros Htf Hb.
  assert (Ht : t <> 0) by (intros ->; lra).
  assert (Hf : f <> 0) by (intros ->; lra).
  exists ((0 - 1) * f). split.
  - unfold simple_to_comp.
    rewrite div_ok, bind_ok, Hb by lra.
    rewrite pow_zero_pos; [reflexivity|].
    apply Rdiv_lt_0_compat; lra.
  - unfold comp_to_simple. rewrite div_ok, bind_ok by exact Hf.
    replace (1 + (0 - 1) * f / f) with 0 by (field; exact Hf).
    rewrite pow_zero_pos, bind_ok, div_ok by assumption.
    f_equal. apply (Rmult_eq_reg_r t); [|exact Ht].
    unfold Rdiv. rewrite Rmult_assoc, Rinv_l by exact Ht. lra.
Qed.

Lemma round_trip_one_period (r t f : R) :
  t * f = 1 -> 1 + r * t < 0 ->
  exists c, simple_to_comp r t f = Ok c /\ comp_to_simple c t f = Ok r.
Proof.
  intros Htf Hb.
  assert (Ht : t <> 0) by (intros ->; lra).
  assert (Hf : f <> 0) by (intros ->; lra).
  assert (Hp : Py.pow (1 + r * t) 1 = Ok (1 + r * t)).
  { rewrite (pow_whole _ 1) by lra. now rewrite powerRZ_1. }
  exists ((1 + r * t - 1) * f). split.
  - unfold simple_to_comp. rewrite Htf, div_ok, bind_ok by lra.
    replace (1 / 1) with 1 by lra. now rewrite Hp.
  - unfold comp_to_simple. rewrite div_ok, bind_ok, Htf by exact Hf.
    replace (1 + (1 + r * t - 1) * f / f) with (1 + r * t)
      by (field; exact Hf).
    rewrite Hp, bind_ok, div_ok by exact Ht.
    f_equal. now field.
Qed.

(** A negative base under an even root: with [r = -6], [t = 1/2],
    [f = 1] both powers are defined ([(-2)**2 = 4] and [4**0.5 = 2]) and
    the round trip returns 2. *)
Lemma round_trip_even_root :
  0 < 1 / 2 * 1 /\
  simple_to_comp (-6) (1 / 2) 1 = Ok 3 /\
  comp_to_simple 3 (1 / 2) 1 = Ok 2 /\
  ~ Rabs (2 - (-6)) < 1 / 10 ^ 9.
Proof.
  split; [lra|]. split; [|split].
  - unfold simple_to_comp. rewrite div_ok, bind_ok by lra.
    replace (1 + -6 * (1 / 2)) with (-2) by lra.
    replace (1 / (1 / 2 * 1)) with (IZR 2) by (simpl; lra).
    rewrite pow_whole, bind_ok by lra.
    f_equal. simpl. lra.
  - unfold comp_to_simple. rewrite div_ok, bind_ok by lra.
    replace (1 + 3 / 1) with (Rpower 2 2).
    + rewrite pow_base_pos, bind_ok by apply Rpower_pos.
      rewrite Rpower_mult.
      replace (2 * (1 / 2 * 1)) with 1 by lra.
      rewrite Rpower_1, div_ok by lra.
      f_equal. lra.
    + replace 2 with (INR 2) at 2 by (simpl; lra).
      rewrite Rpower_pow by lra. simpl. lra.
  - rewrite Rabs_right by lra.
    assert (H : 1 / 10 ^ 9 <= 1).
    { assert (H9 : 1 <= 10 ^ 9) by (apply pow_R1_Rle; lra).
      apply (Rmult_le_reg_r (10 ^ 9)); [lra|].
      unfold Rdiv. rewrite Rmult_assoc, Rinv_l by lra. lra. }
    lra.
Qed.

Lemma integral_true (e : R) : Py.integral e = true -> IZR (Zfloor e) = e.
Proof.
  unfold Py.integral. now destruct (Req_dec_T (IZR (Zfloor e)) e).
Qed.

Lemma integral_fraction (e : R) : 0 < e < 1 -> Py.integral e = false.
Proof.
  intros He. unfold Py.integral.
  rewrite (Zfloor_eq 0) by (simpl; lra).
  destruct (Req_dec_T (IZR 0) e); [lra|reflexivity].
Qed.

Lemma pow_neg_inv (b e v : R) :
  b < 0 -> Py.pow b e = Ok v ->
  IZR (Zfloor e) = e /\ v = powerRZ b (Zfloor e).
Proof.
  intros Hb. unfold Py.pow.
  destruct (Rlt_dec 0 b); [lra|].
  destruct (Req_dec_T b 0); [lra|].
  destruct (Py.integral e) eqn:Hint; [|discriminate].
  intros [= <-]. split; [now apply integral_true|reflexivity].
Qed.

(** With a negative base and [t*f <> 1] the round trip never returns [r]:
    either a power is undefined or the sign is lost. *)
Lemma round_trip_negative_base (r t f c : R) :
  0 < t * f -> 1 + r * t < 0 -> t * f <> 1 ->
  simple_to_comp r t f = Ok c ->
  comp_to_simple c t f <> Ok r.
Proof.
  intros Htf Hb Hne.
  assert (Ht : t <> 0) by (intros ->; lra).
  assert (Hf : f <> 0) by (intros ->; lra).
  unfold simple_to_comp. rewrite div_ok, bind_ok by lra.
  destruct (Py.pow (1 + r * t) (1 / (t * f))) as [p|e] eqn:Hp; [|discriminate].
  rewrite bind_ok. intros [= <-].
  destruct (pow_neg_inv _ _ _ Hb Hp) as [Hk ->].
  set (k := Zfloor (1 / (t * f))) in *.
  assert (He : 0 < 1 / (t * f)) by (apply Rdiv_lt_0_compat; lra).
  assert (Hk2 : (2 <= k)%Z).
  { assert (Hk1 : (0 < k)%Z) by (apply lt_IZR; lra).
    assert (k <> 1%Z); [|lia].
    intros E. rewrite E in Hk. apply Hne.
    apply (Rmult_eq_reg_l (1 / (t * f))); [|lra].
    rewrite <- Hk at 2. field. lra. }
  unfold comp_to_simple. rewrite div_ok, bind_ok by exact Hf.
  replace (1 + (powerRZ (1 + r * t) k - 1) * f / f)
    with (powerRZ (1 + r * t) k) by (field; exact Hf).
  assert (Hp0 : powerRZ (1 + r * t) k <> 0) by (apply powerRZ_NOR; lra).
  destruct (Rlt_dec 0 (powerRZ (1 + r * t) k)) as [Hpos|Hneg].
  - intros E. rewrite pow_base_pos, bind_ok, div_ok in E by assumption.
    injection E as E.
    assert (HR := Rpower_pos (powerRZ (1 + r * t) k) (t * f)).
    apply (Rmult_eq_compat_r t) in E. unfold Rdiv in E.
    rewrite Rmult_assoc, Rinv_l, Rmult_1_r in E by exact Ht.
    lra.
  - assert (Hfrac : Py.integral (t * f) = false).
    { apply integral_fraction. split; [exact Htf|].
      assert (H2 : 2 <= 1 / (t * f)) by (rewrite <- Hk; now apply IZR_le).
      apply (Rmult_le_compat_r (t * f)) in H2; [|lra].
      replace (1 / (t * f) * (t * f)) with 1 in H2 by (field; lra).
      lra. }
    intros E. unfold Py.pow in E.
    destruct (Rlt_dec 0 (powerRZ (1 + r * t) k)); [contradiction|].
    destruct (Req_dec_T (powerRZ (1 + r * t) k) 0); [contradiction|].
    rewrite Hfrac in E. discriminate E.
Qed.

(** C4 (amended). For all [(r, t, f)] with [t*f > 0] and either
    [1 + r*t >= 0] or [t*f = 1], both conversions are defined and
    [comp_to_simple(simple_to_comp(r, t, f), t, f)] is [r] (exactly, in
    real arithmetic, hence within 1e-9). *)
Theorem rate_round_trip (r t f : R) :
  0 < t * f ->
  0 <= 1 + r * t \/ t * f = 1 ->
  exists c r',
    simple_to_comp r t f = Ok c /\
    comp_to_simple c t f = Ok r' /\
    r' = r /\
    Rabs (r' - r) < 1 / 10 ^ 9.
Proof.
  intros Htf Hdom.
  assert (H : exists c, simple_to_comp r t f = Ok c
                        /\ comp_to_simple c t f = Ok r).
  { destruct (Rtotal_order 0 (1 + r * t)) as [Hb|[Hb|Hb]].
    - now apply round_trip_pos.
    - now apply round_trip_zero.
    - destruct Hdom as [Hd|Hd]; [lra|]. now apply round_trip_one_period. }
  destruct H as [c [H1 H2]].
  exists c, r. repeat split; try assumption.
  rewrite Rminus_diag, Rabs_R0.
  apply Rdiv_lt_0_compat; [lra|apply pow_lt; lra].
Qed.

Lemma rate_round_trip_witness :
  exists c r',
    simple_to_comp (5 / 100) 2 2 = Ok c /\
    comp_to_simple c 2 2 = Ok r' /\
    r' = 5 / 100 /\
    Rabs (r' - 5 / 100) < 1 / 10 ^ 9.
Proof.
  apply (rate_round_trip (5 / 100) 2 2); [lra|left; lra].
Defined.

(** ** Bounds on the exponential *)

Lemma exp_INR_mult (x : R) (k : nat) : exp (INR k * x) = exp x ^ k.
Proof.
  induction k as [|k IH].
  - simpl. now rewrite Rmult_0_l, exp_0.
  - rewrite S_INR, Rmult_plus_distr_r, Rmult_1_l, exp_plus, IH.
    simpl. ring.
Qed.

(** Periodic compounding never beats continuous compounding. *)
Lemma compound_le_exp (x : R) (k : nat) :
  0 <= 1 + x -> (1 + x) ^ k <= exp (INR k * x).
Proof.
  intros Hx. rewrite exp_INR_mult. apply pow_incr.
  split; [exact Hx|apply exp_ineq1_le].
Qed.

Lemma exp_neg_bounds (u : R) :
  0 < 1 + u -> 1 - u <= exp (- u) <= / (1 + u).
Proof.
  intros Hu. split.
  - assert (H := exp_ineq1_le (- u)). lra.
  - rewrite exp_Ropp. apply Rinv_le_contravar; [exact Hu|].
    apply exp_ineq1_le.
Qed.

(** ** C7: bounds on the durations *)

Lemma div_nonneg (a b : R) : 0 <= a -> 0 < b -> 0 <= a / b.
Proof.
  intros Ha Hb. unfold Rdiv. apply Rmult_le_pos; [exact Ha|].
  left. now apply Rinv_0_lt_compat.
Qed.

Lemma sum_zero {A : Type} (l : list A) :
  pd.sum (map (fun _ : A => 0) l) = 0.
Proof.
  induction l as [|a l IH]; simpl; [reflexivity|].
  unfold pd.sum in *. rewrite IH. ring.
Qed.

Lemma sum_map_nonneg {A : Type} (g : A -> R) (l : list A) :
  (forall a, In a l -> 0 <= g a) -> 0 <= pd.sum (map g l).
Proof.
  intros H. rewrite <- (sum_zero l). now apply sum_map_le.
Qed.

Lemma sum_snoc (l : pd.Series) (a : R) : pd.sum (l ++ [a]) = pd.sum l + a.
Proof.
  induction l as [|b l IH]; simpl; [ring|].
  unfold pd.sum in *. rewrite IH. ring.
Qed.

(** A sum of non-negative terms whose last term is positive. *)
Lemma sum_nonneg_last (g : nat -> R) (m : nat) :
  (forall i, 0 <= g i) -> 0 < g m -> 0 < pd.sum (map g (seq 0 (S m))).
Proof.
  intros Hg Hlast. rewrite seq_S, map_app. simpl map.
  rewrite sum_snoc.
  assert (H0 : 0 <= pd.sum (map g (seq 0 m)))
    by (apply sum_map_nonneg; intros i _; apply Hg).
  lra.
Qed.

Section DurationBounds.

Variables (bond : Bond) (yc : R) (m : nat).

Hypothesis Hm :
  Z.to_nat (nbre_payments (Tenor bond) (PaymentsFrequency bond)) = S m.
Hypothesis HN : 0 < Nominal bond.
Hypothesis Hcpn : 0 <= AnnualCoupon bond.
Hypothesis Hfreq : 0 < PaymentsFrequency bond.
Hypothesis Hyc : 0 <= yc.

Lemma base_ge_1 : 1 <= 1 + yc / PaymentsFrequency bond.
Proof.
  assert (0 <= yc / PaymentsFrequency bond) by now apply div_nonneg.
  lra.
Qed.

Lemma compounding_pos (i : nat) : 0 < compounding (PaymentsFrequency bond) yc i.
Proof. apply powerRZ_lt. assert (H := base_ge_1). lra. Qed.

Lemma coupon_nonneg :
  0 <= AnnualCoupon bond * Nominal bond * (1 / PaymentsFrequency bond).
Proof.
  apply Rmult_le_pos; [apply Rmult_le_pos; lra|].
  apply div_nonneg; lra.
Qed.

Lemma amount_nonneg (i : nat) :
  0 <= amount (Nominal bond) (AnnualCoupon bond) (PaymentsFrequency bond) m i.
Proof.
  assert (Hc := coupon_nonneg).
  unfold amount. destruct (i =? m)%nat; lra.
Qed.

Lemma amount_last_pos :
  0 < amount (Nominal bond) (AnnualCoupon bond) (PaymentsFrequency bond) m m.
Proof.
  assert (Hc := coupon_nonneg).
  unfold amount. rewrite Nat.eqb_refl. lra.
Qed.

Lemma price_sum_pos : 0 < price_sum bond yc m.
Proof.
  unfold price_sum. apply sum_nonneg_last.
  - intros i. apply div_nonneg; [apply amount_nonneg|apply compounding_pos].
  - apply Rdiv_lt_0_compat; [apply amount_last_pos|apply compounding_pos].
Qed.

Lemma payment_time_bounds (i : nat) :
  (i <= m)%nat -> 0 <= payment_time (PaymentsFrequency bond) i <= Tenor bond.
Proof.
  intros Hi. unfold payment_time.
  assert (Hinv : 0 < 1 / PaymentsFrequency bond)
    by (apply Rdiv_lt_0_compat; lra).
  split.
  - apply Rmult_le_pos; [apply pos_INR|lra].
  - assert (Hn : (0 < nbre_payments (Tenor bond) (PaymentsFrequency bond))%Z)
      by lia.
    assert (Hle := int_le_pos _ Hn).
    fold (nbre_payments (Tenor bond) (PaymentsFrequency bond)) in Hle.
    assert (Hk : INR (i + 1)
                 <= IZR (nbre_payments (Tenor bond) (PaymentsFrequency bond))).
    { rewrite INR_IZR_INZ. apply IZR_le. lia. }
    apply (Rmult_le_reg_r (PaymentsFrequency bond)); [exact Hfreq|].
    replace (INR (i + 1) * (1 / PaymentsFrequency bond) * PaymentsFrequency bond)
      with (INR (i + 1)) by (field; lra).
    lra.
Qed.

(** The weight [exp(-yc*t)] is at most the periodic discount factor. *)
Lemma weight_le_discount (i : nat) :
  exp (- yc * payment_time (PaymentsFrequency bond) i)
  <= / compounding (PaymentsFrequency bond) yc i.
Proof.
  replace (- yc * payment_time (PaymentsFrequency bond) i)
    with (- (INR (i + 1) * (yc / PaymentsFrequency bond)))
    by (unfold payment_time; field; lra).
  rewrite exp_Ropp. apply Rinv_le_contravar; [apply compounding_pos|].
  unfold compounding. rewrite <- pow_powerRZ. apply compound_le_exp.
  assert (H := base_ge_1). lra.
Qed.

Lemma duration_sum_nonneg : 0 <= duration_sum bond yc m.
Proof.
  unfold duration_sum. apply sum_map_nonneg.
  intros i Hi. apply in_seq in Hi.
  apply div_nonneg; [|apply price_sum_pos].
  apply Rmult_le_pos; [|apply amount_nonneg].
  apply Rmult_le_pos; [apply payment_time_bounds; lia|].
  left. apply exp_pos.
Qed.

(** Before rounding, the duration is at most the tenor. *)
Lemma duration_sum_le_tenor : duration_sum bond yc m <= Tenor bond.
Proof.
  assert (Hden := price_sum_pos).
  unfold duration_sum, Rdiv. rewrite sum_map_scal.
  apply (Rmult_le_reg_r (price_sum bond yc m)); [exact Hden|].
  rewrite Rmult_assoc, Rinv_l, Rmult_1_r by lra.
  rewrite (Rmult_comm (Tenor bond)). unfold price_sum at 1.
  rewrite <- sum_map_scal. apply sum_map_le.
  intros i Hi. apply in_seq in Hi.
  assert (Ht := payment_time_bounds i ltac:(lia)).
  assert (Hw := weight_le_discount i).
  assert (Ha := amount_nonneg i).
  assert (He := exp_pos (- yc * payment_time (PaymentsFrequency bond) i)).
  set (t := payment_time (PaymentsFrequency bond) i) in *.
  set (a := amount (Nominal bond) (AnnualCoupon bond)
                   (PaymentsFrequency bond) m i) in *.
  set (c := compounding (PaymentsFrequency bond) yc i) in *.
  unfold Rdiv.
  replace (a * / c * Tenor bond) with (Tenor bond * / c * a) by ring.
  apply Rmult_le_compat_r; [exact Ha|].
  apply Rmult_le_compat; lra.
Qed.

End DurationBounds.

Lemma durations_closed (bond : Bond) (yc : R) (m : nat) :
  Z.to_nat (nbre_payments (Tenor bond) (PaymentsFrequency bond)) = S m ->
  0 < Nominal bond ->
  0 <= AnnualCoupon bond ->
  0 < PaymentsFrequency bond ->
  0 <= yc ->
  macaulay_duration bond yc = Ok (np.round (duration_sum bond yc m) 4) /\
  modified_macaulay_duration bond yc
  = Ok (np.round (np.round (duration_sum bond yc m) 4
                  / (1 + yc / PaymentsFrequency bond)) 4).
Proof.
  intros Hm HN Hcpn Hfreq Hyc.
  assert (Hb := base_ge_1 bond yc Hfreq Hyc).
  assert (Hp := price_sum_pos bond yc m HN Hcpn Hfreq Hyc).
  assert (Hd : macaulay_duration bond yc
               = Ok (np.round (duration_sum bond yc m) 4))
    by (apply macaulay_duration_closed; [exact Hm|lra|lra]).
  split; [exact Hd|].
  apply (modified_macaulay_duration_closed bond yc _ Hd); lra.
Qed.

(** The one-period bond of two months (tenor 1/6, six payments a year) at
    a yield of 0.6%: the duration is about 0.1666666 before rounding. *)
Lemma two_month_bond_duration :
  macaulay_duration (create_bond 100 (1 / 6) (6 / 100) 6) (6 / 1000)
  = Ok (1667 / 10000).
Proof.
  destruct (durations_closed (create_bond 100 (1 / 6) (6 / 100) 6)
                             (6 / 1000) 0) as [Hd _]; try (simpl; lra).
  { simpl. rewrite (nbre_payments_whole (1 / 6) 6 1); [reflexivity|lra]. }
  rewrite Hd. f_equal.
  assert (E : duration_sum (create_bond 100 (1 / 6) (6 / 100) 6) (6 / 1000) 0
              = 1 / 6 * (1001 / 1000) * exp (- (1 / 1000))).
  { unfold duration_sum, price_sum, compounding, amount, payment_time, pd.sum.
    simpl.
    replace (- (6 / 1000) * (1 * (1 / 6))) with (- (1 / 1000)) by lra.
    field. }
  rewrite E.
  assert (Hb := exp_neg_bounds (1 / 1000) ltac:(lra)).
  replace (/ (1 + 1 / 1000)) with (1000 / 1001) in Hb by lra.
  apply round4_near. lra.
Qed.

(** The one-year annual bond at a yield of one millionth: both durations
    round to 1. *)
Lemma tiny_yield_durations :
  macaulay_duration (create_bond 100 1 (6 / 100) 1) (1 / 1000000) = Ok 1 /\
  modified_macaulay_duration (create_bond 100 1 (6 / 100) 1) (1 / 1000000)
  = Ok 1.
Proof.
  destruct (durations_closed (create_bond 100 1 (6 / 100) 1)
                             (1 / 1000000) 0) as [Hd Hmm]; try (simpl; lra).
  { simpl. rewrite (nbre_payments_whole 1 1 1); [reflexivity|lra]. }
  assert (E : duration_sum (create_bond 100 1 (6 / 100) 1) (1 / 1000000) 0
              = 1000001 / 1000000 * exp (- (1 / 1000000))).
  { unfold duration_sum, price_sum, compounding, amount, payment_time, pd.sum.
    simpl.
    replace (- (1 / 1000000) * (1 * (1 / 1))) with (- (1 / 1000000)) by lra.
    field. }
  assert (Hb := exp_neg_bounds (1 / 1000000) ltac:(lra)).
  replace (/ (1 + 1 / 1000000)) with (1000000 / 1000001) in Hb by lra.
  assert (R1 : np.round (duration_sum (create_bond 100 1 (6 / 100) 1)
                                      (1 / 1000000) 0) 4 = 1).
  { rewrite E, (round4_near _ 10000); lra. }
  rewrite Hd, Hmm, R1. split; [reflexivity|].
  f_equal. simpl. rewrite (round4_near _ 10000); lra.
Qed.

(** Rounding breaks both bounds: a duration of 0.1667 for a tenor of 1/6,
    and a modified duration equal to the Macaulay duration. *)
Lemma duration_bounds_fail :
  (exists d,
     macaulay_duration (create_bond 100 (1 / 6) (6 / 100) 6) (6 / 1000) = Ok d /\
     ~ d <= Tenor (create_bond 100 (1 / 6) (6 / 100) 6)) /\
  (exists d mm,
     macaulay_duration (create_bond 100 1 (6 / 100) 1) (1 / 1000000) = Ok d /\
     modified_macaulay_duration (create_bond 100 1 (6 / 100) 1) (1 / 1000000)
     = Ok mm /\
     ~ mm < d).
Proof.
  split.
  - exists (1667 / 10000). split; [exact two_month_bond_duration|].
    simpl. lra.
  - exists 1, 1. destruct tiny_yield_durations as [Hd Hmm].
    repeat split; try assumption. lra.
Qed.

(** C7 (amended). For every bond with positive face value, positive coupon
    rate and positive frequency, at least one payment period and every
    yield > 0, both durations are returned; the Macaulay duration is at
    most the tenor rounded to 4 decimals (hence at most the tenor when the
    tenor has no more than 4 decimals), and the modified duration is at
    most the Macaulay duration. *)
Theorem durations_bounded (bond : Bond) (yc : R) :
  0 < Nominal bond ->
  0 < AnnualCoupon bond ->
  0 < PaymentsFrequency bond ->
  0 < yc ->
  (0 < nbre_payments (Tenor bond) (PaymentsFrequency bond))%Z ->
  exists d mm,
    macaulay_duration bond yc = Ok d /\
    modified_macaulay_duration bond yc = Ok mm /\
    d <= np.round (Tenor bond) 4 /\
    (np.round (Tenor bond) 4 = Tenor bond -> d <= Tenor bond) /\
    mm <= d.
Proof.
  intros HN Hcpn Hfreq Hyc Hn.
  destruct (nbre_payments_S _ _ Hn) as [m Hm].
  assert (Hcpn' : 0 <= AnnualCoupon bond) by lra.
  assert (Hyc' : 0 <= yc) by lra.
  destruct (durations_closed bond yc m Hm HN Hcpn' Hfreq Hyc') as [Hd Hmm].
  assert (Hle := duration_sum_le_tenor bond yc m Hm HN Hcpn' Hfreq Hyc').
  assert (H0 := duration_sum_nonneg bond yc m Hm HN Hcpn' Hfreq Hyc').
  assert (Hb := base_ge_1 bond yc Hfreq Hyc').
  assert (Hround : np.round (duration_sum bond yc m) 4
                   <= np.round (Tenor bond) 4) by now apply round_le.
  exists (np.round (duration_sum bond yc m) 4).
  exists (np.round (np.round (duration_sum bond yc m) 4
                    / (1 + yc / PaymentsFrequency bond)) 4).
  split; [exact Hd|]. split; [exact Hmm|]. split; [exact Hround|].
  split; [intros <-; exact Hround|].
  rewrite <- (round_idem (duration_sum bond yc m) 4) at 2.
  apply round_le.
  assert (Hd0 : 0 <= np.round (duration_sum bond yc m) 4).
  { replace 0 with (np.round (IZR 0 / 10 ^ 4) 4)
      by (rewrite round_grid; simpl; lra).
    apply round_le. simpl. lra. }
  apply (Rmult_le_reg_r (1 + yc / PaymentsFrequency bond)); [lra|].
  unfold Rdiv at 1. rewrite Rmult_assoc, Rinv_l, Rmult_1_r by lra.
  nra.
Qed.

Lemma durations_bounded_witness :
  exists d mm,
    macaulay_duration (create_bond 100 2 (6 / 100) 1) (5 / 100) = Ok d /\
    modified_macaulay_duration (create_bond 100 2 (6 / 100) 1) (5 / 100)
    = Ok mm /\
    d <= np.round 2 4 /\
    (np.round 2 4 = 2 -> d <= 2) /\
    mm <= d.
Proof.
  apply (durations_bounded (create_bond 100 2 (6 / 100) 1) (5 / 100));
    try (simpl; lra).
  simpl. rewrite (nbre_payments_whole 2 1 2); [lia|lra].
Defined.

(** ** C1: zero-coupon bonds *)

Lemma sum_map_zero {A : Type} (g : A -> R) (l : list A) :
  (forall a, In a l -> g a = 0) -> pd.sum (map g l) = 0.
Proof.
  intros H. rewrite <- (sum_zero l). now apply sum_map_ext.
Qed.

(** Without coupons only the last period contributes. *)
Lemma zero_coupon_price_sum (bond : Bond) (yc : R) (m : nat) :
  AnnualCoupon bond = 0 ->
  price_sum bond yc m
  = Nominal bond / compounding (PaymentsFrequency bond) yc m.
Proof.
  intros Hc. unfold price_sum. rewrite seq_S, map_app. simpl map.
  rewrite sum_snoc, sum_map_zero.
  - unfold amount. rewrite Nat.eqb_refl, Hc. unfold Rdiv. ring.
  - intros i Hi. apply in_seq in Hi. unfold amount.
    destruct (Nat.eqb_spec i m); [lia|]. rewrite Hc. unfold Rdiv. ring.
Qed.

Lemma zero_coupon_duration_sum (bond : Bond) (yc : R) (m : nat) :
  AnnualCoupon bond = 0 ->
  Nominal bond <> 0 ->
  compounding (PaymentsFrequency bond) yc m <> 0 ->
  duration_sum bond yc m
  = payment_time (PaymentsFrequency bond) m
    * exp (- yc * payment_time (PaymentsFrequency bond) m)
    * compounding (PaymentsFrequency bond) yc m.
Proof.
  intros Hc HN Hk. unfold duration_sum.
  rewrite zero_coupon_price_sum by exact Hc.
  rewrite seq_S, map_app. simpl map.
  rewrite sum_snoc, sum_map_zero.
  - unfold amount. rewrite Nat.eqb_refl, Hc, !Rmult_0_l, Rplus_0_l.
    field. split; assumption.
  - intros i Hi. apply in_seq in Hi. unfold amount.
    destruct (Nat.eqb_spec i m); [lia|]. rewrite Hc. unfold Rdiv. ring.
Qed.

(** A rational lower bound on a power of a ratio, decided on integers. *)
Lemma pow_ratio_gt (a b c d : Z) (k : nat) :
  (0 < b)%Z -> (0 < d)%Z ->
  (c * b ^ Z.of_nat k < d * a ^ Z.of_nat k)%Z ->
  IZR c / IZR d < (IZR a / IZR b) ^ k.
Proof.
  intros Hb Hd H.
  unfold Rdiv at 2. rewrite Rpow_mult_distr, pow_inv, !pow_IZR.
  assert (HB : (0 < b ^ Z.of_nat k)%Z) by (apply Z.pow_pos_nonneg; lia).
  apply IZR_lt in H, HB, Hd. rewrite !mult_IZR in H.
  set (A := IZR (a ^ Z.of_nat k)) in *.
  set (B := IZR (b ^ Z.of_nat k)) in *.
  apply (Rmult_lt_reg_r (IZR d * B)); [apply Rmult_lt_0_compat; assumption|].
  replace (IZR c / IZR d * (IZR d * B)) with (IZR c * B) by (field; lra).
  replace (A * / B * (IZR d * B)) with (IZR d * A) by (field; lra).
  exact H.
Qed.

Lemma exp_tenth_lower : 110514 / 100000 < exp (1 / 10).
Proof.
  apply Rlt_le_trans with ((IZR 2561 / IZR 2560) ^ 256).
  - apply pow_ratio_gt; [lia|lia|vm_compute; reflexivity].
  - replace (1 / 10) with (INR 256 * (1 / 2560))
      by (rewrite INR_IZR_INZ; simpl Z.of_nat; lra).
    replace (IZR 2561 / IZR 2560) with (1 + 1 / 2560) by lra.
    apply compound_le_exp. lra.
Qed.

Lemma exp_neg_tenth_lower : 90483 / 100000 < exp (- (1 / 10)).
Proof.
  apply Rlt_le_trans with ((IZR 10239 / IZR 10240) ^ 1024).
  - apply pow_ratio_gt; [lia|lia|vm_compute; reflexivity].
  - replace (- (1 / 10)) with (INR 1024 * (- (1 / 10240)))
      by (rewrite INR_IZR_INZ; simpl Z.of_nat; lra).
    replace (IZR 10239 / IZR 10240) with (1 + - (1 / 10240)) by lra.
    apply compound_le_exp. lra.
Qed.

Lemma exp_neg_tenth_bounds :
  90483 / 100000 < exp (- (1 / 10)) < 100000 / 110514.
Proof.
  split; [exact exp_neg_tenth_lower|].
  rewrite exp_Ropp.
  replace (100000 / 110514) with (/ (110514 / 100000)) by (field; lra).
  apply Rinv_lt_contravar; [|exact exp_tenth_lower].
  apply Rmult_lt_0_compat; [lra|apply exp_pos].
Qed.

(** A zero-coupon bond of four months paid three times a year, at yield 0:
    the duration 1/3 comes back rounded to 0.3333. *)
Lemma four_month_zero_duration :
  macaulay_duration (create_bond 100 (1 / 3) 0 3) 0 = Ok (3333 / 10000).
Proof.
  destruct (durations_closed (create_bond 100 (1 / 3) 0 3) 0 0)
    as [Hd _]; try (simpl; lra).
  { simpl. rewrite (nbre_payments_whole (1 / 3) 3 1); [reflexivity|lra]. }
  rewrite Hd. f_equal.
  rewrite zero_coupon_duration_sum; simpl; try lra.
  - unfold payment_time, compounding. simpl.
    replace (- 0 * (1 * (1 / 3))) with 0 by lra. rewrite exp_0.
    apply round4_near. lra.
  - unfold compounding. simpl. lra.
Qed.

(** A two-year annual zero-coupon bond at a 5% yield: the code returns
    1.9952, the rounding of [2 * exp(-0.1) * 1.05^2]. *)
Lemma two_year_zero_duration :
  macaulay_duration (create_bond 100 2 0 1) (5 / 100) = Ok (19952 / 10000).
Proof.
  destruct (durations_closed (create_bond 100 2 0 1) (5 / 100) 1)
    as [Hd _]; try (simpl; lra).
  { simpl. rewrite (nbre_payments_whole 2 1 2); [reflexivity|lra]. }
  rewrite Hd. f_equal.
  rewrite zero_coupon_duration_sum; simpl; try lra.
  - unfold payment_time, compounding. simpl.
    replace (- (5 / 100) * ((1 + 1) * (1 / 1))) with (- (1 / 10)) by lra.
    assert (Hb := exp_neg_tenth_bounds).
    apply round4_near. lra.
  - unfold compounding. simpl. lra.
Qed.

(** Zero-coupon durations that are not the tenor: 0.3333 for a tenor of
    1/3 (rounding), 1.9952 for a tenor of 2 (the weights use [exp(-yc*t)],
    the price uses [(1 + yc/freq) ** (t*freq)]). *)
Lemma zero_coupon_duration_not_tenor :
  macaulay_duration (create_bond 100 (1 / 3) 0 3) 0
    <> Ok (Tenor (create_bond 100 (1 / 3) 0 3)) /\
  macaulay_duration (create_bond 100 2 0 1) (5 / 100)
    <> Ok (Tenor (create_bond 100 2 0 1)).
Proof.
  rewrite four_month_zero_duration, two_year_zero_duration. simpl.
  split; intros [= H]; lra.
Qed.

Lemma zero_coupon_zero_yield (bond : Bond) (k : Z) :
  AnnualCoupon bond = 0 ->
  0 < Nominal bond ->
  0 < PaymentsFrequency bond ->
  Tenor bond * PaymentsFrequency bond = IZR k ->
  (0 < k)%Z ->
  macaulay_duration bond 0 = Ok (np.round (Tenor bond) 4).
Proof.
  intros Hc HN Hf Hk Hpos.
  assert (Hn := nbre_payments_whole _ _ _ Hk).
  assert (Hm : Z.to_nat (nbre_payments (Tenor bond) (PaymentsFrequency bond))
               = S (Z.to_nat k - 1)) by lia.
  destruct (durations_closed bond 0 _ Hm HN ltac:(lra) Hf ltac:(lra))
    as [Hd _].
  rewrite Hd. do 2 f_equal.
  assert (Hcomp : compounding (PaymentsFrequency bond) 0 (Z.to_nat k - 1) = 1).
  { unfold compounding.
    replace (1 + 0 / PaymentsFrequency bond) with 1 by (field; lra).
    apply powerRZ_R1. }
  rewrite zero_coupon_duration_sum; [|exact Hc|lra|rewrite Hcomp; lra].
  rewrite Hcomp, Rmult_1_r, Ropp_0, Rmult_0_l, exp_0, Rmult_1_r.
  unfold payment_time.
  replace (INR (Z.to_nat k - 1 + 1)) with (IZR k)
    by (rewrite INR_IZR_INZ; f_equal; lia).
  rewrite <- Hk. field. lra.
Qed.

(** What the code returns for a zero-coupon bond at a yield >= 0. *)
Lemma zero_coupon_duration_value (bond : Bond) (yc : R) (k : Z) :
  AnnualCoupon bond = 0 ->
  0 < Nominal bond ->
  0 < PaymentsFrequency bond ->
  Tenor bond * PaymentsFrequency bond = IZR k ->
  (0 < k)%Z ->
  0 <= yc ->
  macaulay_duration bond yc
  = Ok (np.round (Tenor bond * exp (- yc * Tenor bond)
                  * powerRZ (1 + yc / PaymentsFrequency bond) k) 4).
Proof.
  intros Hc HN Hf Hk Hpos Hyc.
  assert (Hn := nbre_payments_whole _ _ _ Hk).
  assert (Hm : Z.to_nat (nbre_payments (Tenor bond) (PaymentsFrequency bond))
               = S (Z.to_nat k - 1)) by lia.
  destruct (durations_closed bond yc _ Hm HN ltac:(lra) Hf Hyc) as [Hd _].
  rewrite Hd. do 2 f_equal.
  assert (Hcp := compounding_pos bond yc Hf Hyc (Z.to_nat k - 1)).
  rewrite zero_coupon_duration_sum; [|exact Hc|lra|lra].
  assert (Ht : payment_time (PaymentsFrequency bond) (Z.to_nat k - 1)
               = Tenor bond).
  { unfold payment_time.
    replace (INR (Z.to_nat k - 1 + 1)) with (IZR k)
      by (rewrite INR_IZR_INZ; f_equal; lia).
    rewrite <- Hk. field. lra. }
  rewrite Ht. unfold compounding. do 2 f_equal. lia.
Qed.

(** C1 (amended). For every bond with coupon rate 0, positive face value
    and frequency and [tenor * frequency] a positive whole number: at
    yield 0 the Macaulay duration is the tenor rounded to 4 decimals (the
    tenor itself when it has no more than 4 decimals), and at every
    yield >= 0 it is at most that value. *)
Theorem zero_coupon_duration (bond : Bond) (k : Z) :
  AnnualCoupon bond = 0 ->
  0 < Nominal bond ->
  0 < PaymentsFrequency bond ->
  Tenor bond * PaymentsFrequency bond = IZR k ->
  (0 < k)%Z ->
  macaulay_duration bond 0 = Ok (np.round (Tenor bond) 4) /\
  (np.round (Tenor bond) 4 = Tenor bond ->
   macaulay_duration bond 0 = Ok (Tenor bond)) /\
  (forall yc, 0 <= yc ->
     exists d, macaulay_duration bond yc = Ok d /\
               d <= np.round (Tenor bond) 4).
Proof.
  intros Hc HN Hf Hk Hpos.
  assert (H0 := zero_coupon_zero_yield bond k Hc HN Hf Hk Hpos).
  split; [exact H0|]. split; [intros E; rewrite H0; now f_equal|].
  intros yc Hyc.
  assert (Hn := nbre_payments_whole _ _ _ Hk).
  assert (Hm : Z.to_nat (nbre_payments (Tenor bond) (PaymentsFrequency bond))
               = S (Z.to_nat k - 1)) by lia.
  destruct (durations_closed bond yc _ Hm HN ltac:(lra) Hf Hyc) as [Hd _].
  eexists. split; [exact Hd|].
  apply round_le.
  apply (duration_sum_le_tenor bond yc _ Hm HN ltac:(lra) Hf Hyc).
Qed.

Lemma zero_coupon_duration_witness :
  macaulay_duration (create_bond 100 2 0 1) 0 = Ok (np.round 2 4) /\
  (np.round 2 4 = 2 -> macaulay_duration (create_bond 100 2 0 1) 0 = Ok 2) /\
  (forall yc, 0 <= yc ->
     exists d, macaulay_duration (create_bond 100 2 0 1) yc = Ok d /\
               d <= np.round 2 4).
Proof.
  apply (zero_coupon_duration (create_bond 100 2 0 1) 2);
    simpl; try lra; try lia; reflexivity.
Defined.


(** * Further properties of the source functions *)

(** ** [zc_bond] and [pv_simple] *)

(** X1. For a non-negative face value, maturity and rate, [zc_bond]
    returns a price between 0 and the face value, and a higher rate gives
    a price that is not higher. *)
Theorem zc_bond_discounts (N T r1 r2 : R) (b : bool) :
  0 <= N -> 0 <= T -> 0 <= r1 <= r2 ->
  exists v1 v2,
    zc_bond N T r1 b = Ok v1 /\
    zc_bond N T r2 b = Ok v2 /\
    0 <= v2 <= v1 /\ v1 <= N.
Proof.
  intros HN HT [Hr1 Hr12].
  assert (H1 : 1 <= 1 + r1 * T) by nra.
  assert (H2 : 1 + r1 * T <= 1 + r2 * T) by nra.
  exists (N / (1 + r1 * T)), (N / (1 + r2 * T)).
  unfold zc_bond. rewrite !div_ok by lra.
  split; [reflexivity|]. split; [reflexivity|].
  assert (Hi2 : 0 < / (1 + r2 * T)) by (apply Rinv_0_lt_compat; lra).
  assert (Hi : / (1 + r2 * T) <= / (1 + r1 * T))
    by (apply Rinv_le_contravar; lra).
  assert (Hi1 : / (1 + r1 * T) <= 1).
  { rewrite <- Rinv_1. apply Rinv_le_contravar; lra. }
  unfold Rdiv. repeat split; nra.
Qed.

Lemma zc_bond_discounts_witness :
  exists v1 v2,
    zc_bond 100 2 (3 / 100) true = Ok v1 /\
    zc_bond 100 2 (5 / 100) true = Ok v2 /\
    0 <= v2 <= v1 /\ v1 <= 100.
Proof.
  apply (zc_bond_discounts 100 2 (3 / 100) (5 / 100) true); lra.
Defined.

Lemma rint_error (y : R) : Rabs (IZR (np.rint y) - y) <= 1 / 2.
Proof.
  assert (Hf := Zfloor_bound y). unfold np.rint.
  destruct (Rlt_dec (y - IZR (Zfloor y)) (1 / 2)).
  - apply Rabs_le. lra.
  - destruct (Rlt_dec (1 / 2) (y - IZR (Zfloor y))).
    + rewrite plus_IZR. apply Rabs_le. lra.
    + destruct (Z.even (Zfloor y)); [|rewrite plus_IZR]; apply Rabs_le; lra.
Qed.

(** [np.round] moves a value by at most half a unit of the last decimal. *)
Lemma round_error (x : R) (d : nat) :
  Rabs (np.round x d - x) <= 1 / 2 / 10 ^ d.
Proof.
  assert (Hd := pow10_pos d). unfold np.round.
  replace (IZR (np.rint (x * 10 ^ d)) / 10 ^ d - x)
    with ((IZR (np.rint (x * 10 ^ d)) - x * 10 ^ d) / 10 ^ d)
    by (field; lra).
  unfold Rdiv at 1. rewrite Rabs_mult, (Rabs_right (/ 10 ^ d)).
  - apply Rmult_le_compat_r; [left; now apply Rinv_0_lt_compat|].
    apply rint_error.
  - left. now apply Rinv_0_lt_compat.
Qed.

Lemma round4_error (x : R) : Rabs (np.round x 4 - x) <= 5 / 100000.
Proof.
  replace (5 / 100000) with (1 / 2 / 10 ^ 4) by (simpl; lra).
  apply round_error.
Qed.

(** X2. Whenever [1 + r*tau] is not zero, [pv_simple] returns a value
    with at most 4 decimals that lies within 0.00005 of the exact present
    value [cf / (1 + r*tau)]. *)
Theorem pv_simple_accuracy (cf r tau : R) :
  1 + r * tau <> 0 ->
  exists v,
    pv_simple cf r tau = Ok v /\
    Rabs (v - cf / (1 + r * tau)) <= 5 / 100000 /\
    np.round v 4 = v.
Proof.
  intros H. unfold pv_simple, zc_bond. rewrite div_ok, bind_ok by exact H.
  eexists. split; [reflexivity|]. split.
  - replace (cf / (1 + r * tau)) with (1 / (1 + r * tau) * cf)
      by (field; exact H).
    apply round4_error.
  - apply round_idem.
Qed.

Lemma pv_simple_accuracy_witness :
  exists v,
    pv_simple 106 (55 / 1000) 2 = Ok v /\
    Rabs (v - 106 / (1 + 55 / 1000 * 2)) <= 5 / 100000 /\
    np.round v 4 = v.
Proof.
  apply (pv_simple_accuracy 106 (55 / 1000) 2). lra.
Defined.

(** X3. With [1 + r*tau > 0], [pv_simple] is monotone in the cash flow
    and maps a zero cash flow to zero, so it keeps the sign of the cash
    flow. *)
Theorem pv_simple_monotone (cf1 cf2 r tau : R) :
  0 < 1 + r * tau -> cf1 <= cf2 ->
  pv_simple 0 r tau = Ok 0 /\
  exists v1 v2,
    pv_simple cf1 r tau = Ok v1 /\
    pv_simple cf2 r tau = Ok v2 /\
    v1 <= v2.
Proof.
  intros H Hcf. unfold pv_simple, zc_bond. rewrite !div_ok, !bind_ok by lra.
  split.
  - f_equal. rewrite Rmult_0_r.
    replace 0 with (IZR 0 / 10 ^ 4) by (simpl; lra). apply round_grid.
  - do 2 eexists. split; [reflexivity|]. split; [reflexivity|].
    apply round_le. apply Rmult_le_compat_l; [|exact Hcf].
    apply div_nonneg; lra.
Qed.

Lemma pv_simple_monotone_witness :
  pv_simple 0 (5 / 100) 1 = Ok 0 /\
  exists v1 v2,
    pv_simple 6 (5 / 100) 1 = Ok v1 /\
    pv_simple 106 (5 / 100) 1 = Ok v2 /\
    v1 <= v2.
Proof.
  apply (pv_simple_monotone 6 106 (5 / 100) 1); lra.
Defined.


(** ** The rate conversions *)

Lemma pow_exp_one (x : R) : Py.pow x 1 = Ok x.
Proof.
  destruct (Rtotal_order 0 x) as [H|[H|H]].
  - now rewrite pow_base_pos, Rpower_1.
  - subst x. apply pow_zero_pos. lra.
  - rewrite (pow_whole x 1) by lra. now rewrite powerRZ_1.
Qed.

Lemma pow_exp_zero (x : R) : Py.pow x 0 = Ok 1.
Proof.
  unfold Py.pow.
  destruct (Rlt_dec 0 x) as [H|H]; [now rewrite Rpower_O|].
  destruct (Req_dec_T x 0) as [E|E].
  - destruct (Rlt_dec 0 0); [lra|].
    destruct (Req_dec_T 0 0); [reflexivity|lra].
  - now rewrite (integral_IZR 0), ZfloorZ.
Qed.

(** X4. The conversions are inverse in the other order too: for
    [t*f > 0] and [1 + c/f >= 0], converting a compounded rate to a simple
    rate and back returns the compounded rate. *)
Theorem comp_simple_round_trip (c t f : R) :
  0 < t * f -> 0 <= 1 + c / f ->
  exists s, comp_to_simple c t f = Ok s /\ simple_to_comp s t f = Ok c.
Proof.
  intros Htf Hb.
  assert (Ht : t <> 0) by (intros ->; lra).
  assert (Hf : f <> 0) by (intros ->; lra).
  assert (He : 0 < 1 / (t * f)) by (apply Rdiv_lt_0_compat; lra).
  destruct Hb as [Hb|Hb].
  - exists ((Rpower (1 + c / f) (t * f) - 1) / t). split.
    + unfold comp_to_simple.
      now rewrite div_ok, bind_ok, pow_base_pos, bind_ok, div_ok.
    + unfold simple_to_comp. rewrite div_ok, bind_ok by lra.
      replace (1 + (Rpower (1 + c / f) (t * f) - 1) / t * t)
        with (Rpower (1 + c / f) (t * f)) by (field; exact Ht).
      rewrite pow_base_pos, bind_ok by apply Rpower_pos.
      rewrite Rpower_mult.
      replace (t * f * (1 / (t * f))) with 1 by (field; split; assumption).
      rewrite Rpower_1 by exact Hb. f_equal. now field.
  - exists ((0 - 1) / t). split.
    + unfold comp_to_simple. rewrite div_ok, bind_ok, <- Hb by exact Hf.
      now rewrite pow_zero_pos, bind_ok, div_ok.
    + unfold simple_to_comp. rewrite div_ok, bind_ok by lra.
      replace (1 + (0 - 1) / t * t) with 0 by (field; exact Ht).
      rewrite pow_zero_pos, bind_ok by exact He.
      f_equal. apply (Rmult_eq_reg_r (/ f)); [|now apply Rinv_neq_0_compat].
      rewrite Rmult_assoc, Rinv_r by exact Hf. unfold Rdiv in Hb. lra.
Qed.

Lemma comp_simple_round_trip_witness :
  exists s, comp_to_simple (4 / 100) 3 2 = Ok s
            /\ simple_to_comp s 3 2 = Ok (4 / 100).
Proof.
  apply (comp_simple_round_trip (4 / 100) 3 2); lra.
Defined.

(** X5. Over exactly one compounding period ([t*f = 1]) the two
    conventions coincide: both conversions return the rate unchanged,
    whatever its sign. *)
Theorem one_period_conversion (r t f : R) :
  t * f = 1 ->
  simple_to_comp r t f = Ok r /\ comp_to_simple r t f = Ok r.
Proof.
  intros Htf.
  assert (Ht : t <> 0) by (intros ->; lra).
  assert (Hf : f <> 0) by (intros ->; lra).
  split.
  - unfold simple_to_comp. rewrite Htf, div_ok, bind_ok by lra.
    replace (1 / 1) with 1 by lra. rewrite pow_exp_one, bind_ok.
    f_equal. replace ((1 + r * t - 1) * f) with (r * (t * f)) by ring.
    rewrite Htf. ring.
  - unfold comp_to_simple.
    rewrite div_ok, bind_ok, Htf, pow_exp_one, bind_ok, div_ok by assumption.
    f_equal. replace ((1 + r / f - 1) / t) with (r / (t * f))
      by (field; split; assumption).
    rewrite Htf. field.
Qed.

Lemma one_period_conversion_witness :
  simple_to_comp (- 3) (1 / 4) 4 = Ok (- 3)
  /\ comp_to_simple (- 3) (1 / 4) 4 = Ok (- 3).
Proof.
  apply (one_period_conversion (- 3) (1 / 4) 4). lra.
Defined.

(** X6. A zero horizon or a zero frequency always ends in a division by
    zero: [simple_to_comp] when [t*f = 0], [comp_to_simple] when [t = 0]
    or [f = 0]. *)
Theorem conversion_zero_division (r t f : R) :
  (t * f = 0 -> simple_to_comp r t f = Err ZeroDivisionError) /\
  (t = 0 \/ f = 0 -> comp_to_simple r t f = Err ZeroDivisionError).
Proof.
  split.
  - intros H. unfold simple_to_comp, Py.div. rewrite H.
    destruct (Req_dec_T 0 0); [reflexivity|lra].
  - intros H. unfold comp_to_simple.
    destruct (Req_dec_T f 0) as [Hf|Hf].
    + subst f. unfold Py.div at 1.
      destruct (Req_dec_T 0 0); [reflexivity|lra].
    + destruct H as [H|H]; [|contradiction]. subst t.
      rewrite div_ok, bind_ok, Rmult_0_l, pow_exp_zero, bind_ok by exact Hf.
      unfold Py.div. destruct (Req_dec_T 0 0); [reflexivity|lra].
Qed.

Lemma conversion_zero_division_witness :
  simple_to_comp (5 / 100) 0 2 = Err ZeroDivisionError /\
  comp_to_simple (5 / 100) 0 2 = Err ZeroDivisionError.
Proof.
  split.
  - apply (conversion_zero_division (5 / 100) 0 2). lra.
  - apply (conversion_zero_division (5 / 100) 0 2). left. reflexivity.
Defined.

(** X7. A negative base under a fractional exponent has no real value:
    [simple_to_comp] fails with [1 + r*t < 0] and [t*f > 1], and
    [comp_to_simple] fails with [1 + c/f < 0] and [0 < t*f < 1]. *)
Theorem conversion_negative_base (r t f : R) :
  (1 + r * t < 0 -> 1 < t * f ->
   simple_to_comp r t f = Err ComplexResult) /\
  (1 + r / f < 0 -> 0 < t * f < 1 ->
   comp_to_simple r t f = Err ComplexResult).
Proof.
  split.
  - intros Hb Htf.
    assert (Ht : t <> 0) by (intros ->; lra).
    assert (Hf : f <> 0) by (intros ->; lra).
    unfold simple_to_comp. rewrite div_ok, bind_ok by lra.
    assert (Hfrac : Py.integral (1 / (t * f)) = false).
    { apply integral_fraction. split; [apply Rdiv_lt_0_compat; lra|].
      apply (Rmult_lt_reg_r (t * f)); [lra|].
      replace (1 / (t * f) * (t * f)) with 1 by (field; tauto).
      rewrite Rmult_1_l. exact Htf. }
    unfold Py.pow.
    destruct (Rlt_dec 0 (1 + r * t)); [lra|].
    destruct (Req_dec_T (1 + r * t) 0); [lra|].
    now rewrite Hfrac.
  - intros Hb Htf.
    assert (Hf : f <> 0) by (intros ->; lra).
    unfold comp_to_simple. rewrite div_ok, bind_ok by exact Hf.
    unfold Py.pow.
    destruct (Rlt_dec 0 (1 + r / f)); [lra|].
    destruct (Req_dec_T (1 + r / f) 0); [lra|].
    now rewrite (integral_fraction (t * f) Htf).
Qed.

Lemma conversion_negative_base_witness :
  simple_to_comp (- 3) 1 2 = Err ComplexResult /\
  comp_to_simple (- 3) (1 / 4) 2 = Err ComplexResult.
Proof.
  split.
  - apply (conversion_negative_base (- 3) 1 2); lra.
  - apply (conversion_negative_base (- 3) (1 / 4) 2); lra.
Defined.

(** X8. Over a whole number of compounding periods a non-negative
    compounded rate is worth at least as much as a simple rate:
    [comp_to_simple(c, t, f) >= c] when [t*f] is a whole number, [t > 0],
    [f > 0] and [c >= 0]. *)
Theorem comp_to_simple_ge (c t f : R) (k : nat) :
  0 < t -> 0 < f -> 0 <= c -> t * f = INR k ->
  exists s, comp_to_simple c t f = Ok s /\ c <= s.
Proof.
  intros Ht Hf Hc Hk.
  assert (Hq : 0 <= c / f) by now apply div_nonneg.
  exists (((1 + c / f) ^ k - 1) / t). split.
  - unfold comp_to_simple.
    rewrite div_ok, bind_ok, pow_base_pos, bind_ok, div_ok by lra.
    now rewrite Hk, Rpower_pow by lra.
  - assert (Hpoly : 1 + INR k * (c / f) <= (1 + c / f) ^ k).
    { destruct Hq as [Hq|Hq]; [now apply poly|].
      rewrite <- Hq, Rmult_0_r, Rplus_0_r, pow1. lra. }
    apply (Rmult_le_reg_r t); [exact Ht|].
    replace (((1 + c / f) ^ k - 1) / t * t) with ((1 + c / f) ^ k - 1)
      by (field; lra).
    replace (c * t) with (INR k * (c / f)) by (rewrite <- Hk; field; lra).
    lra.
Qed.

Lemma comp_to_simple_ge_witness :
  exists s, comp_to_simple (4 / 100) 3 2 = Ok s /\ 4 / 100 <= s.
Proof.
  apply (comp_to_simple_ge (4 / 100) 3 2 6); simpl; lra.
Defined.

Lemma Rpower_one_base (e : R) : Rpower 1 e = 1.
Proof. unfold Rpower. now rewrite ln_1, Rmult_0_r, exp_0. Qed.

(** X9. For [t > 0], [f > 0] and rates with [1 + r*t > 0],
    [simple_to_comp] keeps the order of the rates and maps 0 to 0, so the
    compounded rate has the sign of the simple rate. *)
Theorem simple_to_comp_monotone (r1 r2 t f : R) :
  0 < t -> 0 < f -> 0 < 1 + r1 * t -> r1 <= r2 ->
  simple_to_comp 0 t f = Ok 0 /\
  exists c1 c2,
    simple_to_comp r1 t f = Ok c1 /\
    simple_to_comp r2 t f = Ok c2 /\
    c1 <= c2.
Proof.
  intros Ht Hf Hb Hr.
  assert (Htf : 0 < t * f) by now apply Rmult_lt_0_compat.
  assert (He : 0 < 1 / (t * f)) by (apply Rdiv_lt_0_compat; lra).
  assert (Hb2 : 1 + r1 * t <= 1 + r2 * t) by nra.
  unfold simple_to_comp. rewrite !div_ok, !bind_ok by lra. split.
  - rewrite Rmult_0_l, Rplus_0_r, pow_base_pos, bind_ok by lra.
    rewrite Rpower_one_base. f_equal. ring.
  - rewrite !pow_base_pos, !bind_ok by lra.
    do 2 eexists. split; [reflexivity|]. split; [reflexivity|].
    apply Rmult_le_compat_r; [lra|].
    assert (H : Rpower (1 + r1 * t) (1 / (t * f))
                <= Rpower (1 + r2 * t) (1 / (t * f)))
      by (apply Rle_Rpower_l; [lra|split; lra]).
    lra.
Qed.

Lemma simple_to_comp_monotone_witness :
  simple_to_comp 0 2 2 = Ok 0 /\
  exists c1 c2,
    simple_to_comp (3 / 100) 2 2 = Ok c1 /\
    simple_to_comp (5 / 100) 2 2 = Ok c2 /\
    c1 <= c2.
Proof.
  apply (simple_to_comp_monotone (3 / 100) (5 / 100) 2 2); lra.
Defined.


(** ** The yield-based price *)

Lemma nbre_payments_pos_iff (T freq : R) :
  (0 < nbre_payments T freq)%Z <-> 1 <= T * freq.
Proof.
  split.
  - intros Hn. assert (H := int_le_pos (T * freq) Hn).
    fold (nbre_payments T freq) in H.
    assert (1 <= IZR (nbre_payments T freq)) by (apply IZR_le; lia). lra.
  - intros H. unfold nbre_payments. rewrite int_nonneg by lra.
    assert (1 <= Zfloor (T * freq))%Z by (apply Zfloor_lub; simpl; lra). lia.
Qed.

(** X10. The outcomes of [bond_c_price].  It raises, and then
    [IndexError], exactly when [T*freq < 1] (no payment period); with a
    payment period it returns a float64, whatever the yield.  With a
    payment period and [1 + yc/freq] not zero that float64 is the sum of
    the cash flows divided by their compounding factors.  With a payment
    period and [1 + yc/freq = 0] every cash flow is divided by [0.0]: a
    bond with positive face value and non-negative coupon is priced
    [inf], and a bond with face value 0 is priced 0, its [nan] terms
    being skipped by the sum. *)
Theorem bond_c_price_outcomes (bond : Bond) (yc : R) :
  let N := Nominal bond in
  let T := Tenor bond in
  let cpn_ann := AnnualCoupon bond in
  let freq := PaymentsFrequency bond in
  (bond_c_price bond yc = Err IndexError <-> T * freq < 1) /\
  (1 <= T * freq -> exists v : float64, bond_c_price bond yc = np.returned v) /\
  (1 <= T * freq -> 1 + yc / freq <> 0 ->
   bond_c_price bond yc
   = Ok (price_sum bond yc (Z.to_nat (nbre_payments T freq) - 1))) /\
  (1 <= T * freq -> 1 + yc / freq = 0 ->
   (0 < N -> 0 <= cpn_ann * N * (1 / freq) ->
    bond_c_price bond yc = Err ReturnsInf) /\
   (N = 0 -> bond_c_price bond yc = Ok 0)).
Proof.
  intros N T cpn_ann freq. split; [|split; [|split]].
  - split.
    + intros He.
      destruct (Rlt_dec (T * freq) 1) as [Hlt|Hge]; [exact Hlt|exfalso].
      assert (Hn : (0 < nbre_payments T freq)%Z)
        by (apply nbre_payments_pos_iff; lra).
      destruct (nbre_payments_S _ _ Hn) as [m Hm].
      rewrite (bond_c_price_value bond yc m Hm) in He.
      now destruct (pd.fsum _).
    + intros H.
      assert (Hn : (nbre_payments T freq <= 0)%Z).
      { destruct (Z_lt_le_dec 0 (nbre_payments T freq)) as [Hp|Hp]; [|exact Hp].
        apply nbre_payments_pos_iff in Hp. lra. }
      unfold bond_c_price. fold T freq.
      now rewrite cash_flows_empty.
  - intros H. apply nbre_payments_pos_iff in H.
    destruct (nbre_payments_S _ _ H) as [m Hm].
    eexists. exact (bond_c_price_value bond yc m Hm).
  - intros H Hb. apply nbre_payments_pos_iff in H.
    apply bond_c_price_closed; [|exact Hb]. fold T freq. lia.
  - intros H Hb. apply nbre_payments_pos_iff in H.
    destruct (nbre_payments_S _ _ H) as [m Hm].
    split.
    + now apply (bond_c_price_zero_base_inf bond yc m).
    + now apply (bond_c_price_zero_base_zero bond yc m).
Qed.

Lemma bond_c_price_outcomes_witness :
  bond_c_price (create_bond 100 2 (6 / 100) 1) (5 / 100)
    = Ok (price_sum (create_bond 100 2 (6 / 100) 1) (5 / 100)
                    (Z.to_nat (nbre_payments 2 1) - 1)) /\
  bond_c_price (create_bond 100 2 (6 / 100) 1) (- 1) = Err ReturnsInf /\
  bond_c_price (create_bond 0 2 (6 / 100) 1) (- 1) = Ok 0.
Proof.
  split; [|split].
  - apply (bond_c_price_outcomes (create_bond 100 2 (6 / 100) 1) (5 / 100));
      simpl; lra.
  - apply (bond_c_price_outcomes (create_bond 100 2 (6 / 100) 1) (- 1));
      simpl; lra.
  - apply (bond_c_price_outcomes (create_bond 0 2 (6 / 100) 1) (- 1));
      simpl; lra.
Defined.

(** The schedule of [S m] periods: [m] coupons, then coupon plus face. *)
Lemma sum_amount_split (N cpn_ann freq : R) (m : nat) (w : nat -> R) :
  pd.sum (map (fun i => amount N cpn_ann freq m i * w i) (seq 0 (S m)))
  = cpn_ann * N * (1 / freq) * pd.sum (map w (seq 0 m))
    + (cpn_ann * N * (1 / freq) + N) * w m.
Proof.
  rewrite seq_S, map_app. simpl map. rewrite sum_snoc. f_equal.
  - rewrite Rmult_comm, <- sum_map_scal. apply sum_map_ext.
    intros i Hi. apply in_seq in Hi. unfold amount.
    destruct (Nat.eqb_spec i m); [lia|ring].
  - unfold amount. now rewrite Nat.eqb_refl.
Qed.

Lemma price_sum_split (bond : Bond) (yc : R) (m : nat) :
  price_sum bond yc m
  = AnnualCoupon bond * Nominal bond * (1 / PaymentsFrequency bond)
    * pd.sum (map (fun i => / compounding (PaymentsFrequency bond) yc i)
                  (seq 0 m))
    + (AnnualCoupon bond * Nominal bond * (1 / PaymentsFrequency bond)
       + Nominal bond)
      * / compounding (PaymentsFrequency bond) yc m.
Proof. unfold price_sum, Rdiv. apply sum_amount_split. Qed.

(** The annuity factor: a geometric sum. *)
Lemma annuity_factor (b : R) (m : nat) :
  b <> 0 ->
  (b - 1) * pd.sum (map (fun i => / b ^ (i + 1)) (seq 0 m)) = 1 - / b ^ m.
Proof.
  intros Hb. induction m as [|m IH].
  - simpl. unfold pd.sum. simpl. rewrite Rinv_1. ring.
  - rewrite seq_S, map_app. simpl map. rewrite sum_snoc.
    rewrite Rmult_plus_distr_l, IH.
    replace (m + 1)%nat with (S m) by lia.
    assert (Hm : b ^ m <> 0) by now apply pow_nonzero.
    simpl. field. split; assumption.
Qed.

(** X11. Priced at a yield equal to its coupon rate a bond is at par:
    [bond_c_price] returns the face value, for every number of payment
    periods. *)
Theorem bond_c_price_at_par (bond : Bond) :
  (0 < nbre_payments (Tenor bond) (PaymentsFrequency bond))%Z ->
  1 + AnnualCoupon bond / PaymentsFrequency bond <> 0 ->
  bond_c_price bond (AnnualCoupon bond) = Ok (Nominal bond).
Proof.
  intros Hn Hb.
  destruct (nbre_payments_S _ _ Hn) as [m Hm].
  assert (Hf := nbre_payments_freq _ _ Hn).
  rewrite (bond_c_price_closed bond _ m Hm Hb). f_equal.
  rewrite price_sum_split. unfold compounding.
  set (b := 1 + AnnualCoupon bond / PaymentsFrequency bond) in *.
  rewrite (sum_map_ext _ (fun i => / b ^ (i + 1)))
    by (intros i _; now rewrite pow_powerRZ).
  rewrite <- pow_powerRZ.
  replace (AnnualCoupon bond * Nominal bond * (1 / PaymentsFrequency bond))
    with (Nominal bond * (b - 1)) by (unfold b; field; exact Hf).
  rewrite Rmult_assoc, annuity_factor by exact Hb.
  assert (Hm0 : b ^ m <> 0) by now apply pow_nonzero.
  replace (m + 1)%nat with (S m) by lia. simpl. field. split; assumption.
Qed.

Lemma bond_c_price_at_par_witness :
  bond_c_price (create_bond 100 5 (6 / 100) 2) (6 / 100) = Ok 100.
Proof.
  apply (bond_c_price_at_par (create_bond 100 5 (6 / 100) 2)).
  - simpl. rewrite (nbre_payments_whole 5 2 10); [lia|lra].
  - simpl. lra.
Defined.


Lemma compounding_le (freq y1 y2 : R) (i : nat) :
  0 < freq -> 0 <= y1 <= y2 ->
  0 < compounding freq y1 i <= compounding freq y2 i.
Proof.
  intros Hf [H1 H12]. unfold compounding. rewrite <- !pow_powerRZ.
  assert (Hq1 : 0 <= y1 / freq) by now apply div_nonneg.
  assert (Hq : y1 / freq <= y2 / freq).
  { unfold Rdiv. apply Rmult_le_compat_r; [|exact H12].
    left. now apply Rinv_0_lt_compat. }
  split; [apply pow_lt; lra|apply pow_incr; lra].
Qed.

(** X12. For a bond with positive face value and frequency, a
    non-negative coupon rate and at least one payment period, the
    yield-based price is positive and does not increase when the yield
    rises, for yields >= 0. *)
Theorem bond_c_price_decreasing (bond : Bond) (y1 y2 : R) :
  0 < Nominal bond ->
  0 <= AnnualCoupon bond ->
  0 < PaymentsFrequency bond ->
  (0 < nbre_payments (Tenor bond) (PaymentsFrequency bond))%Z ->
  0 <= y1 <= y2 ->
  exists p1 p2,
    bond_c_price bond y1 = Ok p1 /\
    bond_c_price bond y2 = Ok p2 /\
    0 < p2 <= p1.
Proof.
  intros HN Hc Hf Hn [H1 H12].
  destruct (nbre_payments_S _ _ Hn) as [m Hm].
  assert (H2 : 0 <= y2) by lra.
  assert (Hb1 := base_ge_1 bond y1 Hf H1).
  assert (Hb2 := base_ge_1 bond y2 Hf H2).
  exists (price_sum bond y1 m), (price_sum bond y2 m).
  split; [apply bond_c_price_closed; [exact Hm|lra]|].
  split; [apply bond_c_price_closed; [exact Hm|lra]|].
  split; [now apply price_sum_pos|].
  unfold price_sum. apply sum_map_le. intros i _.
  assert (Ha := amount_nonneg bond m HN Hc Hf i).
  destruct (compounding_le (PaymentsFrequency bond) y1 y2 i Hf
                           (conj H1 H12)) as [Hp Hle].
  unfold Rdiv. apply Rmult_le_compat_l; [exact Ha|].
  now apply Rinv_le_contravar.
Qed.

Lemma bond_c_price_decreasing_witness :
  exists p1 p2,
    bond_c_price (create_bond 100 2 (6 / 100) 1) (3 / 100) = Ok p1 /\
    bond_c_price (create_bond 100 2 (6 / 100) 1) (5 / 100) = Ok p2 /\
    0 < p2 <= p1.
Proof.
  apply (bond_c_price_decreasing (create_bond 100 2 (6 / 100) 1)
                                 (3 / 100) (5 / 100)); simpl; try lra.
  rewrite (nbre_payments_whole 2 1 2); [lia|lra].
Defined.

Lemma sum_const {A : Type} (x : R) (l : list A) :
  pd.sum (map (fun _ : A => x) l) = INR (length l) * x.
Proof.
  induction l as [|a l IH]; [simpl; unfold pd.sum; simpl; ring|].
  change (pd.sum (map (fun _ : A => x) (a :: l)))
    with (x + pd.sum (map (fun _ : A => x) l)).
  rewrite IH. simpl length. rewrite S_INR. ring.
Qed.



Lemma amount_scale (k N cpn_ann freq : R) (m i : nat) :
  amount (k * N) cpn_ann freq m i = k * amount N cpn_ann freq m i.
Proof. unfold amount. destruct (i =? m)%nat; ring. Qed.

Lemma price_sum_scale (k N T cpn_ann freq yc : R) (m : nat) :
  price_sum (create_bond (k * N) T cpn_ann freq) yc m
  = k * price_sum (create_bond N T cpn_ann freq) yc m.
Proof.
  unfold price_sum.
  cbv beta iota delta [create_bond Nominal AnnualCoupon PaymentsFrequency].
  rewrite (Rmult_comm k (pd.sum _)), <- sum_map_scal.
  apply sum_map_ext. intros i _. rewrite amount_scale. unfold Rdiv. ring.
Qed.

(** X14. The yield-based price is proportional to the face value:
    multiplying the nominal by [k] multiplies the price by [k]. *)
Theorem bond_c_price_scales (k N T cpn_ann freq yc : R) :
  (0 < nbre_payments T freq)%Z ->
  1 + yc / freq <> 0 ->
  exists p,
    bond_c_price (create_bond N T cpn_ann freq) yc = Ok p /\
    bond_c_price (create_bond (k * N) T cpn_ann freq) yc = Ok (k * p).
Proof.
  intros Hn Hb.
  destruct (nbre_payments_S _ _ Hn) as [m Hm].
  exists (price_sum (create_bond N T cpn_ann freq) yc m).
  split; [now apply bond_c_price_closed|].
  rewrite <- price_sum_scale. now apply bond_c_price_closed.
Qed.

Lemma bond_c_price_scales_witness :
  exists p,
    bond_c_price (create_bond 100 2 (6 / 100) 1) (5 / 100) = Ok p /\
    bond_c_price (create_bond (10 * 100) 2 (6 / 100) 1) (5 / 100)
    = Ok (10 * p).
Proof.
  apply (bond_c_price_scales 10 100 2 (6 / 100) 1 (5 / 100)).
  - rewrite (nbre_payments_whole 2 1 2); [lia|lra].
  - lra.
Defined.

Lemma duration_sum_scale (k N T cpn_ann freq yc : R) (m : nat) :
  k <> 0 ->
  price_sum (create_bond N T cpn_ann freq) yc m <> 0 ->
  duration_sum (create_bond (k * N) T cpn_ann freq) yc m
  = duration_sum (create_bond N T cpn_ann freq) yc m.
Proof.
  intros Hk Hp. unfold duration_sum. rewrite price_sum_scale.
  cbv beta iota delta [create_bond Nominal AnnualCoupon PaymentsFrequency].
  apply sum_map_ext. intros i _. rewrite amount_scale. field.
  split; assumption.
Qed.

(** X15. Both durations are independent of the face value: scaling the
    nominal of a bond by [k > 0] leaves [macaulay_duration] and
    [modified_macaulay_duration] unchanged. *)
Theorem durations_scale_free (k N T cpn_ann freq yc : R) :
  0 < k -> 0 < N -> 0 <= cpn_ann -> 0 < freq -> 0 <= yc ->
  (0 < nbre_payments T freq)%Z ->
  exists d mm,
    macaulay_duration (create_bond N T cpn_ann freq) yc = Ok d /\
    macaulay_duration (create_bond (k * N) T cpn_ann freq) yc = Ok d /\
    modified_macaulay_duration (create_bond N T cpn_ann freq) yc = Ok mm /\
    modified_macaulay_duration (create_bond (k * N) T cpn_ann freq) yc
    = Ok mm.
Proof.
  intros Hk HN Hc Hf Hy Hn.
  destruct (nbre_payments_S _ _ Hn) as [m Hm].
  assert (HkN : 0 < k * N) by now apply Rmult_lt_0_compat.
  destruct (durations_closed (create_bond N T cpn_ann freq) yc m
                             Hm HN Hc Hf Hy) as [Hd Hmm].
  destruct (durations_closed (create_bond (k * N) T cpn_ann freq) yc m
                             Hm HkN Hc Hf Hy) as [Hd' Hmm'].
  assert (Hp := price_sum_pos (create_bond N T cpn_ann freq) yc m
                              HN Hc Hf Hy).
  rewrite duration_sum_scale in Hd', Hmm' by lra.
  do 2 eexists. split; [exact Hd|]. split; [exact Hd'|].
  split; [exact Hmm|exact Hmm'].
Qed.

Lemma durations_scale_free_witness :
  exists d mm,
    macaulay_duration (create_bond 100 2 (6 / 100) 1) (5 / 100) = Ok d /\
    macaulay_duration (create_bond (10 * 100) 2 (6 / 100) 1) (5 / 100)
    = Ok d /\
    modified_macaulay_duration (create_bond 100 2 (6 / 100) 1) (5 / 100)
    = Ok mm /\
    modified_macaulay_duration (create_bond (10 * 100) 2 (6 / 100) 1)
                               (5 / 100)
    = Ok mm.
Proof.
  apply (durations_scale_free 10 100 2 (6 / 100) 1 (5 / 100)); try lra.
  rewrite (nbre_payments_whole 2 1 2); [lia|lra].
Defined.


(** ** The curve-based price and the other functions *)

Lemma payment_time_pos (freq : R) (i : nat) :
  0 < freq -> 0 < payment_time freq i.
Proof.
  intros Hf. unfold payment_time. apply Rmult_lt_0_compat.
  - rewrite plus_INR. assert (H := pos_INR i). simpl. lra.
  - apply Rdiv_lt_0_compat; lra.
Qed.

Lemma payment_time_neq_0 (freq : R) (i : nat) :
  freq <> 0 -> payment_time freq i <> 0.
Proof.
  intros Hf. unfold payment_time. apply Rmult_integral_contrapositive. split.
  - rewrite plus_INR. assert (H := pos_INR i). simpl. lra.
  - unfold Rdiv. rewrite Rmult_1_l. now apply Rinv_neq_0_compat.
Qed.

(** The simple rate equivalent to a compounded yield at a payment time. *)
Lemma comp_to_simple_payment_time (yc freq : R) (i : nat) :
  freq <> 0 -> 1 + yc / freq <> 0 ->
  comp_to_simple yc (payment_time freq i) freq
  = Ok ((compounding freq yc i - 1) / payment_time freq i).
Proof.
  intros Hf Hb. unfold comp_to_simple.
  rewrite div_ok, bind_ok, payment_time_periods by exact Hf.
  rewrite pow_whole, bind_ok by exact Hb.
  now rewrite div_ok by now apply payment_time_neq_0.
Qed.

(** X16. The two pricing modes agree: when every zero rate is the simple
    rate that [comp_to_simple] gives for the compounded yield at that
    payment time, [bond_s_price] returns the [bond_c_price] of the same
    bond rounded to 4 decimals. *)
Theorem curve_price_of_flat_yield (N T cpn_ann freq yc : R) :
  (0 < nbre_payments T freq)%Z ->
  1 + yc / freq <> 0 ->
  exists (zc_rates : pd.Series) (p : R),
    mapM (fun i => comp_to_simple yc (payment_time freq i) freq)
         (Py.range (nbre_payments T freq)) = Ok zc_rates /\
    bond_c_price (create_bond N T cpn_ann freq) yc = Ok p /\
    bond_s_price N cpn_ann T freq zc_rates = Ok (np.round p 4).
Proof.
  intros Hn Hb.
  destruct (nbre_payments_S _ _ Hn) as [m Hm].
  assert (Hf := nbre_payments_freq _ _ Hn).
  set (s := fun i => (compounding freq yc i - 1) / payment_time freq i).
  exists (map s (seq 0 (S m))).
  exists (price_sum (create_bond N T cpn_ann freq) yc m).
  split; [|split].
  - unfold Py.range. rewrite Hm. apply mapM_ok.
    intros i _. now apply comp_to_simple_payment_time.
  - now apply bond_c_price_closed.
  - assert (Hone : forall i, (i <= m)%nat ->
              1 + nth i (map s (seq 0 (S m))) 0 * payment_time freq i
              = compounding freq yc i).
    { intros i Hi. rewrite nth_map_seq by lia. unfold s. field.
      now apply payment_time_neq_0. }
    rewrite (bond_s_price_closed _ _ _ _ _ m Hm).
    + do 2 f_equal. unfold price_sum.
      cbv beta iota delta [create_bond Nominal AnnualCoupon PaymentsFrequency].
      apply sum_map_ext. intros i Hi. apply in_seq in Hi.
      rewrite Hone by lia. unfold Rdiv. ring.
    + now rewrite length_map, length_seq.
    + intros i Hi. rewrite Hone by exact Hi.
      unfold compounding. now apply powerRZ_NOR.
Qed.

Lemma curve_price_of_flat_yield_witness :
  exists (zc_rates : pd.Series) (p : R),
    mapM (fun i => comp_to_simple (5 / 100) (payment_time 2 i) 2)
         (Py.range (nbre_payments 3 2)) = Ok zc_rates /\
    bond_c_price (create_bond 100 3 (6 / 100) 2) (5 / 100) = Ok p /\
    bond_s_price 100 (6 / 100) 3 2 zc_rates = Ok (np.round p 4).
Proof.
  apply (curve_price_of_flat_yield 100 3 (6 / 100) 2 (5 / 100)).
  - rewrite (nbre_payments_whole 3 2 6); [lia|lra].
  - lra.
Defined.

(** X17. A zero-coupon bond priced on a curve depends on the last zero
    rate only: the price is [zc_bond] of the face value at the last
    payment time and rate, rounded to 4 decimals (the earlier rates must
    only keep their own denominators away from zero). *)
Theorem bond_s_price_zero_coupon (N T freq : R) (zc_rates : pd.Series)
        (m : nat) :
  Z.to_nat (nbre_payments T freq) = S m ->
  (S m <= length zc_rates)%nat ->
  (forall i, (i <= m)%nat -> 1 + nth i zc_rates 0 * payment_time freq i <> 0) ->
  exists v,
    zc_bond N (payment_time freq m) (nth m zc_rates 0) true = Ok v /\
    bond_s_price N 0 T freq zc_rates = Ok (np.round v 4).
Proof.
  intros Hm Hlen Hnz.
  exists (N / (1 + nth m zc_rates 0 * payment_time freq m)). split.
  - unfold zc_bond. apply div_ok. apply Hnz. lia.
  - rewrite (bond_s_price_closed _ _ _ _ _ m Hm Hlen Hnz).
    do 2 f_equal.
    rewrite (sum_amount_split N 0 freq m
               (fun i => 1 / (1 + nth i zc_rates 0 * payment_time freq i))).
    unfold Rdiv. ring.
Qed.

Lemma bond_s_price_zero_coupon_witness :
  exists v,
    zc_bond 100 (payment_time 1 1) (nth 1 [5 / 100; 55 / 1000] 0) true = Ok v /\
    bond_s_price 100 0 2 1 [5 / 100; 55 / 1000] = Ok (np.round v 4).
Proof.
  apply (bond_s_price_zero_coupon 100 2 1 [5 / 100; 55 / 1000] 1).
  - rewrite (nbre_payments_whole 2 1 2); [reflexivity|lra].
  - simpl. lia.
  - intros i Hi. unfold payment_time.
    destruct i as [|[|i]]; [simpl; lra|simpl; lra|lia].
Defined.

(** X18. For a bond with a single payment period the curve-based price is
    the [pv_simple] of its only cash flow (coupon plus face value) at the
    first zero rate and the payment time [1/freq], as long as the
    denominator [1 + r/freq] is not zero; further rates are ignored.  At a
    zero denominator the two part: [pv_simple], on Python scalars, raises
    [ZeroDivisionError], while [bond_s_price], whose rate is a numpy
    value, raises nothing and returns [inf], [-inf] or 0 for a positive,
    negative or zero cash flow. *)
Theorem bond_s_price_one_payment (N cpn_ann T freq r : R) (rest : pd.Series) :
  let cf := cpn_ann * N * (1 / freq) + N in
  let t := payment_time freq 0 in
  nbre_payments T freq = 1%Z ->
  (1 + r * t <> 0 ->
   bond_s_price N cpn_ann T freq (r :: rest) = pv_simple cf r t) /\
  (1 + r * t = 0 ->
   pv_simple cf r t = Err ZeroDivisionError /\
   (0 < cf -> bond_s_price N cpn_ann T freq (r :: rest) = Err ReturnsInf) /\
   (cf < 0 -> bond_s_price N cpn_ann T freq (r :: rest) = Err ReturnsNegInf) /\
   (cf = 0 -> bond_s_price N cpn_ann T freq (r :: rest) = Ok 0)).
Proof.
  intros cf t Hn.
  assert (Hm : Z.to_nat (nbre_payments T freq) = 1%nat) by lia.
  assert (Hv := bond_s_price_value N cpn_ann T freq (r :: rest) 0 Hm).
  cbn [length seq map nth pd.fsum] in Hv.
  unfold amount in Hv. rewrite Nat.eqb_refl in Hv.
  fold cf t in Hv. unfold zc_bond_np in Hv.
  rewrite Hv by lia. clear Hv. split.
  - intros Hd. rewrite np_div_fin by exact Hd.
    unfold pv_simple, zc_bond. rewrite div_ok, bind_ok by exact Hd.
    simpl. do 2 f_equal. ring.
  - intros Hd. rewrite Hd, np_div_zero, signed_inf_pos by lra.
    split; [|split; [|split]].
    + unfold pv_simple, zc_bond, Py.div. rewrite Hd.
      destruct (Req_dec_T 0 0); [reflexivity|lra].
    + intros Hcf. simpl. now rewrite signed_inf_pos.
    + intros Hcf. simpl. now rewrite signed_inf_neg.
    + intros Hcf. simpl. rewrite Hcf, signed_inf_zero. simpl.
      f_equal. apply round_zero.
Qed.

Lemma bond_s_price_one_payment_witness :
  bond_s_price 100 (6 / 100) 1 1 [5 / 100]
  = pv_simple (6 / 100 * 100 * (1 / 1) + 100) (5 / 100) (payment_time 1 0) /\
  pv_simple (6 / 100 * 100 * (1 / 1) + 100) (- 1) (payment_time 1 0)
  = Err ZeroDivisionError /\
  bond_s_price 100 (6 / 100) 1 1 [- 1] = Err ReturnsInf.
Proof.
  assert (Hn : nbre_payments 1 1 = 1%Z) by (apply nbre_payments_whole; lra).
  split; [|split].
  - apply (bond_s_price_one_payment 100 (6 / 100) 1 1 (5 / 100) [] Hn).
    unfold payment_time. simpl. lra.
  - apply (bond_s_price_one_payment 100 (6 / 100) 1 1 (- 1) [] Hn).
    unfold payment_time. simpl. lra.
  - apply (bond_s_price_one_payment 100 (6 / 100) 1 1 (- 1) [] Hn).
    + unfold payment_time. simpl. lra.
    + lra.
Defined.




(** ** The durations and the aggregate *)

(** X20. At [1 + yc/freq = 0], for a bond with a payment period, a
    positive face value and a non-negative coupon, nothing is raised and
    the non-finite price flows through the durations: the price is
    [inf], every term of the Macaulay duration is a finite numerator
    divided by [inf], so that the Macaulay duration is 0, and the
    modified duration is [0.0 / 0.0], that is [nan]. *)
Theorem durations_at_zero_base (bond : Bond) (yc : R) :
  1 <= Tenor bond * PaymentsFrequency bond ->
  1 + yc / PaymentsFrequency bond = 0 ->
  0 < Nominal bond ->
  0 <= AnnualCoupon bond * Nominal bond * (1 / PaymentsFrequency bond) ->
  bond_c_price bond yc = Err ReturnsInf /\
  macaulay_duration bond yc = Ok 0 /\
  modified_macaulay_duration bond yc = Err ReturnsNaN.
Proof.
  intros H Hb HN Hc. apply nbre_payments_pos_iff in H.
  destruct (nbre_payments_S _ _ H) as [m Hm].
  assert (Hf := nbre_payments_freq _ _ H).
  assert (Hp := bond_c_price_zero_base_inf bond yc m Hm Hb HN Hc).
  assert (Hd : macaulay_duration bond yc = Ok 0).
  { unfold macaulay_duration.
    rewrite (cash_flows_amount _ _ _ _ m Hm), (timeline_payment_time _ _ m Hm).
    rewrite !bind_ok, Hp. cbn [np.value]. rewrite bind_ok. cbv zeta.
    rewrite map_map, mul_map, map_map. cbn [np.div].
    rewrite (fsum_fin (fun _ => 0)), sum_zero. cbn [np.around np.returned].
    now rewrite round_zero. }
  split; [exact Hp|]. split; [exact Hd|].
  unfold modified_macaulay_duration.
  rewrite Hd. cbn [np.value]. rewrite bind_ok, div_ok, bind_ok by exact Hf.
  now rewrite Hb, np_div_zero, signed_inf_zero.
Qed.

Lemma durations_at_zero_base_witness :
  bond_c_price (create_bond 100 2 (6 / 100) 1) (- 1) = Err ReturnsInf /\
  macaulay_duration (create_bond 100 2 (6 / 100) 1) (- 1) = Ok 0 /\
  modified_macaulay_duration (create_bond 100 2 (6 / 100) 1) (- 1)
    = Err ReturnsNaN.
Proof.
  apply (durations_at_zero_base (create_bond 100 2 (6 / 100) 1) (- 1));
    simpl; lra.
Defined.

(** X21. At yield 0 the modified duration is the Macaulay duration. *)
Theorem modified_at_zero_yield (bond : Bond) :
  0 < Nominal bond ->
  0 <= AnnualCoupon bond ->
  0 < PaymentsFrequency bond ->
  (0 < nbre_payments (Tenor bond) (PaymentsFrequency bond))%Z ->
  exists d,
    macaulay_duration bond 0 = Ok d /\
    modified_macaulay_duration bond 0 = Ok d.
Proof.
  intros HN Hc Hf Hn.
  destruct (nbre_payments_S _ _ Hn) as [m Hm].
  destruct (durations_closed bond 0 m Hm HN Hc Hf (Rle_refl 0)) as [Hd Hmm].
  exists (np.round (duration_sum bond 0 m) 4).
  split; [exact Hd|]. rewrite Hmm. f_equal.
  replace (np.round (duration_sum bond 0 m) 4 / (1 + 0 / PaymentsFrequency bond))
    with (np.round (duration_sum bond 0 m) 4) by (field; lra).
  apply round_idem.
Qed.

Lemma modified_at_zero_yield_witness :
  exists d,
    macaulay_duration (create_bond 100 2 (6 / 100) 1) 0 = Ok d /\
    modified_macaulay_duration (create_bond 100 2 (6 / 100) 1) 0 = Ok d.
Proof.
  apply (modified_at_zero_yield (create_bond 100 2 (6 / 100) 1));
    simpl; try lra.
  rewrite (nbre_payments_whole 2 1 2); [lia|lra].
Defined.

(** The [IndexError] of the yield-based price is the [IndexError] of
    everything built on it. *)
Lemma price_failure_propagates (bond : Bond) (yc : R) :
  bond_c_price bond yc = Err IndexError ->
  macaulay_duration bond yc = Err IndexError /\
  modified_macaulay_duration bond yc = Err IndexError /\
  bond_stats bond yc = Err IndexError.
Proof.
  intros Hp.
  assert (Hd : macaulay_duration bond yc = Err IndexError).
  { unfold macaulay_duration. cbv zeta.
    destruct (cash_flows _ _ _ _) as [CFs|e1] eqn:E1.
    - destruct (timeline _ _) as [tl|e2] eqn:E2; cbn [bind].
      + now rewrite Hp.
      + unfold bond_c_price in Hp. cbv zeta in Hp.
        now rewrite E1, E2 in Hp.
    - unfold bond_c_price in Hp. cbv zeta in Hp. now rewrite E1 in Hp. }
  split; [exact Hd|]. split.
  - unfold modified_macaulay_duration. now rewrite Hd.
  - unfold bond_stats. now rewrite Hp.
Qed.

(** X22. With a zero frequency or a non-positive tenor ([T*freq <= 0])
    there is no payment period either: every pricing and duration
    function stops with the [IndexError] of [CFs.iloc[-1]]; in particular
    a zero frequency never reaches the division [1/freq]. *)
Theorem nonpositive_schedule_raises (bond : Bond) (yc : R)
        (zc_rates : pd.Series) :
  Tenor bond * PaymentsFrequency bond <= 0 ->
  bond_s_price (Nominal bond) (AnnualCoupon bond) (Tenor bond)
               (PaymentsFrequency bond) zc_rates = Err IndexError /\
  bond_c_price bond yc = Err IndexError /\
  macaulay_duration bond yc = Err IndexError /\
  modified_macaulay_duration bond yc = Err IndexError /\
  bond_stats bond yc = Err IndexError.
Proof.
  intros H.
  assert (Hn : (nbre_payments (Tenor bond) (PaymentsFrequency bond) <= 0)%Z).
  { destruct (Z_lt_le_dec 0 (nbre_payments (Tenor bond)
                                           (PaymentsFrequency bond)))
      as [Hp|Hp]; [|exact Hp].
    apply nbre_payments_pos_iff in Hp. lra. }
  assert (Hcf := cash_flows_empty (Nominal bond) (AnnualCoupon bond) _ _ Hn).
  assert (Hp : bond_c_price bond yc = Err IndexError)
    by (unfold bond_c_price; now rewrite Hcf).
  split; [unfold bond_s_price; now rewrite Hcf|].
  split; [exact Hp|].
  now apply price_failure_propagates.
Qed.

Lemma nonpositive_schedule_raises_witness :
  bond_s_price 100 (6 / 100) 2 0 [5 / 100; 55 / 1000] = Err IndexError /\
  bond_c_price (create_bond 100 2 (6 / 100) 0) (5 / 100) = Err IndexError /\
  macaulay_duration (create_bond 100 2 (6 / 100) 0) (5 / 100)
    = Err IndexError /\
  modified_macaulay_duration (create_bond 100 2 (6 / 100) 0) (5 / 100)
    = Err IndexError /\
  bond_stats (create_bond 100 2 (6 / 100) 0) (5 / 100) = Err IndexError.
Proof.
  apply (nonpositive_schedule_raises (create_bond 100 2 (6 / 100) 0)
                                     (5 / 100) [5 / 100; 55 / 1000]).
  simpl. lra.
Defined.


(** X23. With a non-negative zero rate for every payment period, a
    positive face value and frequency and a non-negative coupon rate, the
    curve-based price lies between 0 and the undiscounted total of the
    cash flows rounded to 4 decimals. *)
Theorem bond_s_price_bounds (N cpn_ann T freq : R) (zc_rates : pd.Series) :
  0 < N -> 0 <= cpn_ann -> 0 < freq ->
  (0 < nbre_payments T freq)%Z ->
  (nbre_payments T freq <= Z.of_nat (length zc_rates))%Z ->
  (forall i, (Z.of_nat i < nbre_payments T freq)%Z -> 0 <= nth i zc_rates 0) ->
  exists p,
    bond_s_price N cpn_ann T freq zc_rates = Ok p /\
    0 <= p <= np.round (IZR (nbre_payments T freq) * (cpn_ann * N / freq) + N) 4.
Proof.
  intros HN Hc Hf Hn Hlen Hr.
  destruct (nbre_payments_S _ _ Hn) as [m Hm].
  set (B := create_bond N T cpn_ann freq).
  assert (Ha : forall i, 0 <= amount N cpn_ann freq m i)
    by (intros i; exact (amount_nonneg B m HN Hc Hf i)).
  assert (Hden : forall i, (i <= m)%nat ->
            1 <= 1 + nth i zc_rates 0 * payment_time freq i).
  { intros i Hi. assert (H0 : 0 <= nth i zc_rates 0) by (apply Hr; lia).
    assert (Ht := payment_time_pos freq i Hf). nra. }
  eexists. split.
  - apply (bond_s_price_closed _ _ _ _ _ m Hm); [lia|].
    intros i Hi. specialize (Hden i Hi). lra.
  - split.
    + rewrite <- (round_zero 4) at 1. apply round_le.
      apply sum_map_nonneg. intros i Hi. apply in_seq in Hi.
      apply Rmult_le_pos; [apply Ha|].
      apply div_nonneg; [lra|]. specialize (Hden i ltac:(lia)). lra.
    + apply round_le.
      apply Rle_trans
        with (pd.sum (map (fun i => amount N cpn_ann freq m i * 1)
                          (seq 0 (S m)))).
      * apply sum_map_le. intros i Hi. apply in_seq in Hi.
        apply Rmult_le_compat_l; [apply Ha|].
        specialize (Hden i ltac:(lia)).
        apply (Rmult_le_reg_r (1 + nth i zc_rates 0 * payment_time freq i));
          [lra|].
        unfold Rdiv. rewrite Rmult_assoc, Rinv_l by lra. lra.
      * rewrite (sum_amount_split N cpn_ann freq m (fun _ => 1)).
        rewrite sum_const, length_seq.
        replace (IZR (nbre_payments T freq)) with (INR (S m))
          by (rewrite INR_IZR_INZ, <- Hm; f_equal; lia).
        rewrite S_INR. right. field. lra.
Qed.

Lemma bond_s_price_bounds_witness :
  exists p,
    bond_s_price 100 (6 / 100) 2 1 [5 / 100; 55 / 1000] = Ok p /\
    0 <= p <= np.round (IZR (nbre_payments 2 1) * (6 / 100 * 100 / 1) + 100) 4.
Proof.
  assert (Hn : nbre_payments 2 1 = 2%Z) by (apply nbre_payments_whole; lra).
  apply (bond_s_price_bounds 100 (6 / 100) 2 1 [5 / 100; 55 / 1000]);
    try lra.
  - rewrite Hn. lia.
  - rewrite Hn. simpl. lia.
  - rewrite Hn. intros i Hi.
    destruct i as [|[|i]]; [simpl; lra|simpl; lra|lia].
Defined.
